(** * foodmonitor: the DGS2 sensor relay (backend)

    A shallow embedding of the Node.js backend of the repository:

    - [storage/data.store.js]     the in-memory store with its ring buffer,
    - [services/sensor.service.js] the ingestion service,
    - [websocket/ws.server.js]    the WebSocket hub,
    - [routes/sensor.routes.js]   the REST handlers,

    and of the sliding window of a graph in the front end's
    [Dashboard.tsx], followed by the properties that are established on
    them.

    Conventions.  A JavaScript object parsed from a JSON body is a finite
    map from property names to values.  Module-level mutable state (the
    [dataStore] singleton, [wsServer], [connectedClients]) is gathered in a
    [World] record that every operation threads explicitly; an operation
    either returns or throws.  Counters and lengths are natural numbers (the
    IEEE rounding of JavaScript numbers beyond 2^53 is not modelled for
    them).  [new Date().toISOString()] reads an oracle stored in the world.
    Of the conversion of a value to a string, in a template literal or in
    the construction of a date, the model keeps whether it raises. *)

From Stdlib Require Import ZArith Floats.SpecFloat.
From stdpp Require Import base option list strings gmap.

Open Scope string_scope.
Open Scope list_scope.
Open Scope nat_scope.
#[local] Set Warnings "-register-all,-abstract-large-number".

(** ** JavaScript values *)

(** Values as [JSON.parse] produces them.  A number is an IEEE-754 value in
    the Standard Library's specification format. *)
Inductive JsValue : Type :=
| JsNull
| JsBool (b : bool)
| JsNum (x : spec_float)
| JsStr (s : string)
| JsArr (items : list JsValue)
| JsObj (fields : list (string * JsValue)).

(** An object received as a request body; [o !! k = None] is JavaScript's
    [undefined] for an absent property. *)
Abbreviation JsObject := (gmap string JsValue).
Abbreviation Reading := (gmap string JsValue).

(** [ToBoolean]: what [!v] negates. *)
Definition truthy (v : JsValue) : bool :=
  match v with
  | JsNull => false
  | JsBool b => b
  | JsNum (S754_zero _) => false
  | JsNum S754_nan => false
  | JsNum _ => true
  | JsStr s => negb (String.eqb s "")
  | JsArr _ => true
  | JsObj _ => true
  end.

(** [!o.k] for a property read that may yield [undefined]. *)
Definition js_not (v : option JsValue) : bool :=
  match v with
  | None => true
  | Some x => negb (truthy x)
  end.

(** [k in o] *)
Definition js_in (k : string) (o : JsObject) : bool :=
  bool_decide (is_Some (o !! k)).

(** Whether the conversion of [v] to a primitive value returns: what a
    template literal and [new Date(v)] need.  A parsed object inherits
    [Object.prototype.toString], which answers "[object Object]", unless it
    has a property named [toString] of its own; that one is never a
    function, [valueOf] answers the object itself, and the conversion
    raises [TypeError].  An array is joined, which converts each of its
    elements. *)
Fixpoint can_convert (v : JsValue) : bool :=
  match v with
  | JsObj fields =>
      negb (existsb (fun kv => String.eqb (fst kv) "toString") fields)
  | JsArr items => forallb can_convert items
  | _ => true
  end.

(** The same for a property read that may yield [undefined]. *)
Definition convertible (v : option JsValue) : bool :=
  match v with
  | None => true
  | Some x => can_convert x
  end.

(** The message of the [TypeError] of a conversion that raises. *)
Definition TypeError_convert : string :=
  "Cannot convert object to primitive value".

(** How a call ends: it returns a value or throws an [Error] with a
    message. *)
Inductive Outcome (A : Type) : Type :=
| Returned (a : A)
| Thrown (message : string).
Arguments Returned {A} a.
Arguments Thrown {A} message.

(** ** Observable effects *)

(** The messages the hub puts on a socket: the object that is passed to
    [JSON.stringify], tagged by its [type] property. *)
Inductive WsMessage : Type :=
| MsgConnection (message : string) (timestamp : string) (clientCount : nat)
| MsgPong (timestamp : string)
| MsgSensorReading (data : Reading) (timestamp : string).

(** What one call of [fs.appendFileSync] adds to
    [logs/sensor_readings.csv]: the eight values that are interpolated,
    separated by commas, into the text, in the order of the template.  The
    text itself is not modelled: a value is written as its conversion to a
    string, which may bring commas or line feeds of its own. *)
Definition CsvRow : Type := list (option JsValue).

(** The lines written with [console.log], [console.warn] and
    [console.error], by the place that writes them. *)
Inductive LogEntry : Type :=
| LogStoreInitialized
| LogRingBufferLimit (removed_timestamp : option JsValue)
| LogCleared (count : nat)
| LogCsvWriteFailed (message : string)
| LogSensor (ppb temperature humidity : option JsValue)
| LogHandleError (message : string)
| LogRouteError (message : string)
| LogWsNotInitialized
| LogWsSendFailed (message : string)
| LogWsBroadcasted (successCount size : nat)
| LogWsConnected (clientIp : string)
| LogWsReceived (clientIp : string) (type : option JsValue)
| LogWsMessageError (message : string)
| LogWsDisconnected (clientIp : string) (remaining : nat)
| LogWsError (clientIp : string) (message : string)
| LogWsInitialized.

(** Everything an operation does to the outside or to shared state, in the
    order in which it does it. *)
Inductive Effect : Type :=
| FxLog (e : LogEntry)
| FxPush (r : Reading)
| FxShift (r : Reading)
| FxClear
| FxCsv (row : CsvRow)
| FxSend (client : nat) (m : WsMessage)
| FxSendThrew (client : nat).

Definition is_send (fx : Effect) : bool :=
  match fx with FxSend _ _ | FxSendThrew _ => true | _ => false end.

Definition is_store_write (fx : Effect) : bool :=
  match fx with FxPush _ | FxShift _ | FxClear => true | _ => false end.

(** The readings removed by [shift()], in the order of removal. *)
Definition shifted (fxs : list Effect) : list Reading :=
  omap (fun fx => match fx with FxShift r => Some r | _ => None end) fxs.

(** ** storage/data.store.js *)

Module Store.

Record Metadata : Type := mkMetadata {
  initialized : option string;
  totalReadingsReceived : nat
}.

Record DataStore : Type := mkDataStore {
  readings : list Reading;
  metadata : Metadata
}.

Definition MAX_READINGS : nat := 10000.

(** The module-level [dataStore] as the module creates it. *)
Definition dataStore : DataStore :=
  {| readings := [];
     metadata := {| initialized := None; totalReadingsReceived := 0 |} |}.

Definition initializeStorage (now : string) (ds : DataStore)
  : DataStore * list Effect :=
  ({| readings := readings ds;
      metadata := {| initialized := Some now;
                     totalReadingsReceived :=
                       totalReadingsReceived (metadata ds) |} |},
   [FxLog LogStoreInitialized]).

(** A call of [addReading]: how it ends, the store it leaves and what it
    has done, in order. *)
Record Call : Type := mkCall {
  outcome : Outcome unit;
  after : DataStore;
  effects : list Effect
}.

(** [addReading] with the bound as an argument; [addReading] below is the
    source's function, at [MAX_READINGS].  The line that reports an
    eviction interpolates [removed.timestamp]: when that value cannot be
    converted the call raises, after the push, the increment and the shift.
    The array is never empty after [push], so [shift()] always removes an
    element: the second branch of the [match] is not reached. *)
Definition addReadingCap (cap : nat) (reading : Reading) (ds : DataStore)
  : Call :=
  let pushed := readings ds ++ [reading] in
  let md := {| initialized := initialized (metadata ds);
               totalReadingsReceived :=
                 S (totalReadingsReceived (metadata ds)) |} in
  if cap <? length pushed then
    match pushed with
    | removed :: rest =>
        if convertible (removed !! "timestamp") then
          mkCall (Returned tt) {| readings := rest; metadata := md |}
                 [FxPush reading; FxShift removed;
                  FxLog (LogRingBufferLimit (removed !! "timestamp"))]
        else
          mkCall (Thrown TypeError_convert)
                 {| readings := rest; metadata := md |}
                 [FxPush reading; FxShift removed]
    | [] =>
        mkCall (Thrown "Cannot read properties of undefined")
               {| readings := []; metadata := md |} [FxPush reading]
    end
  else mkCall (Returned tt) {| readings := pushed; metadata := md |}
              [FxPush reading].

Definition addReading : Reading -> DataStore -> Call :=
  addReadingCap MAX_READINGS.

Definition getAllReadings (ds : DataStore) : list Reading := readings ds.

(** [None] is the [null] the source returns for an empty store. *)
Definition getLatestReading (ds : DataStore) : option Reading :=
  if length (readings ds) =? 0 then None
  else readings ds !! (length (readings ds) - 1).

Definition clearReadings (ds : DataStore) : DataStore * list Effect :=
  let count := length (readings ds) in
  ({| readings := []; metadata := metadata ds |},
   [FxClear; FxLog (LogCleared count)]).

Record StorageStats : Type := mkStorageStats {
  currentReadings : nat;
  maxCapacity : nat;
  totalProcessed : nat;
  stats_initialized : option string
}.

Definition getStorageStats (ds : DataStore) : StorageStats :=
  {| currentReadings := length (readings ds);
     maxCapacity := MAX_READINGS;
     totalProcessed := totalReadingsReceived (metadata ds);
     stats_initialized := initialized (metadata ds) |}.

(** A run of appends, each on the store the previous one left, however
    that one ended, with the effects of all of them. *)
Fixpoint appendAll (cap : nat) (rs : list Reading) (ds : DataStore)
  : DataStore * list Effect :=
  match rs with
  | [] => (ds, [])
  | r :: rs' =>
      let call := addReadingCap cap r ds in
      let '(ds2, fx2) := appendAll cap rs' (after call) in
      (ds2, effects call ++ fx2)
  end.

End Store.

(** ** The shared world and the monad of operations *)

Inductive ReadyState : Type := CONNECTING | OPEN | CLOSING | CLOSED.

Definition is_open (st : ReadyState) : bool :=
  match st with OPEN => true | _ => false end.

(** A [ws] connection object.  [send_throws] is the one thing the model
    does not decide: whether [send] on this open socket raises.  [inbox] is
    what has been put on the wire for the peer, oldest first. *)
Record Socket : Type := mkSocket {
  remoteAddress : string;
  readyState : ReadyState;
  send_throws : bool;
  inbox : list WsMessage
}.

Record World : Type := mkWorld {
  store : Store.DataStore;
  wsServer : bool;
  connectedClients : list nat;
  sockets : gmap nat Socket;
  next_socket : nat;
  csv_log : list CsvRow;
  csv_writable : bool;
  clock : nat -> string;
  clock_reads : nat;
  trace : list Effect
}.

Definition set_store (ds : Store.DataStore) (w : World) : World :=
  mkWorld ds (wsServer w) (connectedClients w) (sockets w) (next_socket w)
          (csv_log w) (csv_writable w) (clock w) (clock_reads w) (trace w).

Definition set_wsServer (b : bool) (w : World) : World :=
  mkWorld (store w) b (connectedClients w) (sockets w) (next_socket w)
          (csv_log w) (csv_writable w) (clock w) (clock_reads w) (trace w).

Definition set_connectedClients (cs : list nat) (w : World) : World :=
  mkWorld (store w) (wsServer w) cs (sockets w) (next_socket w)
          (csv_log w) (csv_writable w) (clock w) (clock_reads w) (trace w).

Definition set_sockets (ss : gmap nat Socket) (w : World) : World :=
  mkWorld (store w) (wsServer w) (connectedClients w) ss (next_socket w)
          (csv_log w) (csv_writable w) (clock w) (clock_reads w) (trace w).

Definition set_next_socket (n : nat) (w : World) : World :=
  mkWorld (store w) (wsServer w) (connectedClients w) (sockets w) n
          (csv_log w) (csv_writable w) (clock w) (clock_reads w) (trace w).

Definition set_csv_log (rows : list CsvRow) (w : World) : World :=
  mkWorld (store w) (wsServer w) (connectedClients w) (sockets w)
          (next_socket w) rows (csv_writable w) (clock w) (clock_reads w)
          (trace w).

Definition set_clock_reads (n : nat) (w : World) : World :=
  mkWorld (store w) (wsServer w) (connectedClients w) (sockets w)
          (next_socket w) (csv_log w) (csv_writable w) (clock w) n (trace w).

Definition set_trace (t : list Effect) (w : World) : World :=
  mkWorld (store w) (wsServer w) (connectedClients w) (sockets w)
          (next_socket w) (csv_log w) (csv_writable w) (clock w)
          (clock_reads w) t.

(** What a socket has received so far; [[]] for an identity that names no
    socket. *)
Definition inbox_of (w : World) (client : nat) : list WsMessage :=
  match sockets w !! client with
  | Some s => inbox s
  | None => []
  end.

Definition M (A : Type) : Type := World -> Outcome A * World.

#[global] Instance M_ret : MRet M := fun A a w => (Returned a, w).

#[global] Instance M_bind : MBind M := fun A B f m w =>
  match m w with
  | (Returned a, w1) => f a w1
  | (Thrown e, w1) => (Thrown e, w1)
  end.

Definition throw {A : Type} (e : string) : M A := fun w => (Thrown e, w).

(** [try { body } catch (error) { handler }] *)
Definition try_catch {A : Type} (body : M A) (handler : string -> M A) : M A :=
  fun w =>
    match body w with
    | (Returned a, w1) => (Returned a, w1)
    | (Thrown e, w1) => handler e w1
    end.

(** Reading and writing module-level variables. *)
Definition gets {A : Type} (f : World -> A) : M A :=
  fun w => (Returned (f w), w).

Definition modify (f : World -> World) : M unit :=
  fun w => (Returned tt, f w).

Definition emit (fxs : list Effect) : M unit :=
  modify (fun w => set_trace (trace w ++ fxs) w).

Definition console (e : LogEntry) : M unit := emit [FxLog e].

(** [new Date().toISOString()] *)
Definition new_Date_toISOString : M string :=
  fun w => (Returned (clock w (clock_reads w)),
            set_clock_reads (S (clock_reads w)) w).

(** A template literal whose substitutions have the values [vs]: each is
    converted to a string, in order. *)
Definition interpolate (vs : list (option JsValue)) : M unit :=
  if forallb convertible vs then mret tt else throw TypeError_convert.

(** An operation of the store module, run on the singleton. *)
Definition on_dataStore
    (f : Store.DataStore -> Store.DataStore * list Effect) : M unit :=
  fun w =>
    let '(ds, fxs) := f (store w) in
    (Returned tt, set_trace (trace w ++ fxs) (set_store ds w)).

(** The exception that [send] raises on a socket, if any: the library
    raises on a socket that is still connecting, the connection may raise
    on an open one, and on a socket that is closing or closed the frame is
    dropped without an exception (as the [ws] library does since 7.2). *)
Definition send_error (s : option Socket) : option string :=
  match s with
  | Some sock =>
      match readyState sock with
      | CONNECTING =>
          Some "WebSocket is not open: readyState 0 (CONNECTING)"
      | OPEN => if send_throws sock then Some "send failed" else None
      | CLOSING | CLOSED => None
      end
  | None => Some "send failed"
  end.

(** [ws.send(JSON.stringify(m))]: delivers on an open socket unless the
    socket raises; on a socket that is not open nothing is delivered. *)
Definition ws_send (client : nat) (m : WsMessage) : M unit :=
  fun w =>
    match send_error (sockets w !! client) with
    | Some e => (Thrown e, set_trace (trace w ++ [FxSendThrew client]) w)
    | None =>
        match sockets w !! client with
        | Some s =>
            if is_open (readyState s) then
              (Returned tt,
               set_trace (trace w ++ [FxSend client m])
                 (set_sockets
                    (<[client := mkSocket (remoteAddress s) (readyState s)
                                   (send_throws s) (inbox s ++ [m])]>
                       (sockets w))
                    w))
            else (Returned tt, w)
        | None => (Returned tt, w)
        end
    end.

(** [fs.appendFileSync(CSV_LOG_PATH, csvLine)]; the file is the list of
    its data lines, and [csv_writable] tells whether the write succeeds. *)
Definition fs_appendFileSync (row : CsvRow) : M unit :=
  fun w =>
    if csv_writable w then
      (Returned tt,
       set_trace (trace w ++ [FxCsv row]) (set_csv_log (csv_log w ++ [row]) w))
    else (Thrown "EACCES", w).

(** ** websocket/ws.server.js *)

Module Ws.

Definition setupWebSocket : M unit :=
  modify (set_wsServer true) ;;
  console LogWsInitialized.

(** [connectedClients.add(ws)]: a [Set] keeps one copy, in insertion
    order. *)
Definition set_add (client : nat) (cs : list nat) : list nat :=
  if bool_decide (client ∈ cs) then cs else cs ++ [client].

(** [connectedClients.delete(ws)] *)
Definition set_delete (client : nat) (cs : list nat) : list nat :=
  List.filter (fun c => negb (Nat.eqb c client)) cs.

(** The body of the ['connection'] handler, up to the registration of
    the per-socket handlers below. *)
Definition on_connection (ws : nat) (clientIp : string) : M unit :=
  console (LogWsConnected clientIp) ;;
  modify (fun w => set_connectedClients (set_add ws (connectedClients w)) w) ;;
  (now ← new_Date_toISOString ;
   size ← gets (fun w => length (connectedClients w)) ;
   ws_send ws (MsgConnection "Connected to DGS2 sensor server" now size)).

(** [JSON.parse(data)]; the frame is given by what the parser makes of
    it, [None] when it raises [SyntaxError]. *)
Definition JSON_parse (data : option JsValue) : M JsValue :=
  match data with
  | Some v => mret v
  | None => throw "Unexpected token in JSON"
  end.

Fixpoint obj_get (k : string) (fields : list (string * JsValue))
  : option JsValue :=
  match fields with
  | [] => None
  | (k', v) :: rest =>
      match obj_get k rest with
      | Some v' => Some v'
      | None => if String.eqb k k' then Some v else None
      end
  end.

(** [message.type]: a [TypeError] on [null], [undefined] on the other
    values that are not objects with that property. *)
Definition message_type (message : JsValue) : M (option JsValue) :=
  match message with
  | JsNull => throw "Cannot read properties of null (reading 'type')"
  | JsObj fields => mret (obj_get "type" fields)
  | _ => mret None
  end.

Definition is_ping (ty : option JsValue) : bool :=
  match ty with
  | Some (JsStr s) => String.eqb s "ping"
  | _ => false
  end.

(** The ['message'] handler of a socket. *)
Definition on_message (ws : nat) (clientIp : string)
    (data : option JsValue) : M unit :=
  try_catch
    (message ← JSON_parse data ;
     ty ← message_type message ;
     (console (LogWsReceived clientIp
                 (if js_not ty then Some (JsStr "unknown") else ty)) ;;
      if is_ping ty then
        now ← new_Date_toISOString ;
        ws_send ws (MsgPong now)
      else mret tt))
    (fun e => console (LogWsMessageError e)).

(** The ['close'] handler of a socket. *)
Definition on_close (ws : nat) (clientIp : string) : M unit :=
  modify (fun w =>
            set_connectedClients (set_delete ws (connectedClients w)) w) ;;
  (size ← gets (fun w => length (connectedClients w)) ;
   console (LogWsDisconnected clientIp size)).

(** The ['error'] handler of a socket. *)
Definition on_error (ws : nat) (clientIp : string) (message : string)
  : M unit :=
  console (LogWsError clientIp message).

(** [client.readyState === WebSocket.OPEN] *)
Definition client_open (client : nat) (w : World) : bool :=
  match sockets w !! client with
  | Some s => is_open (readyState s)
  | None => false
  end.

Definition when (b : bool) (m : M unit) : M unit :=
  if b then m else mret tt.

(** The callback of [connectedClients.forEach], on the pair
    [(successCount, failCount)]. *)
Definition send_to (payload : WsMessage) (client : nat)
    (counts : nat * nat) : M (nat * nat) :=
  open ← gets (client_open client) ;
  if open : bool then
    try_catch
      (ws_send client payload ;; mret (S (fst counts), snd counts))
      (fun e => console (LogWsSendFailed e) ;;
                mret (fst counts, S (snd counts)))
  else mret counts.

Fixpoint forEach (payload : WsMessage) (clients : list nat)
    (counts : nat * nat) : M (nat * nat) :=
  match clients with
  | [] => mret counts
  | client :: rest =>
      counts1 ← send_to payload client counts ;
      forEach payload rest counts1
  end.

Definition broadcastToClients (sensorData : Reading) : M unit :=
  server ← gets wsServer ;
  if negb server then console LogWsNotInitialized
  else
    now ← new_Date_toISOString ;
    let payload := MsgSensorReading sensorData now in
    clients ← gets connectedClients ;
    counts ← forEach payload clients (0, 0) ;
    size ← gets (fun w => length (connectedClients w)) ;
    when (0 <? size) (console (LogWsBroadcasted (fst counts) size)).

Definition getConnectedClientCount : M nat :=
  gets (fun w => length (connectedClients w)).

End Ws.

(** ** services/sensor.service.js *)

Module Service.

Definition getDataStore : M Store.DataStore := gets store.

(** The store module's [addReading], on the singleton. *)
Definition addReading (reading : Reading) : M unit :=
  fun w =>
    let call := Store.addReading reading (store w) in
    (Store.outcome call,
     set_trace (trace w ++ Store.effects call) (set_store (Store.after call) w)).

Definition csv_columns : list string :=
  ["timestamp"; "sensor_sn"; "ppb"; "temperature"; "humidity";
   "adc_gas"; "adc_temp"; "adc_hum"].

Definition appendToCSVLog (sensorData : Reading) : M unit :=
  try_catch
    (let csvLine := map (fun k => sensorData !! k) csv_columns in
     interpolate csvLine ;;
     fs_appendFileSync csvLine)
    (fun e => console (LogCsvWriteFailed e)).

Record HandleResult : Type := mkHandleResult {
  success : bool;
  readingCount : nat
}.

(** [sensorData.timestamp = new Date().toISOString()] when
    [!sensorData.timestamp]; the rest of the function works on the same
    object. *)
Definition fill_timestamp (sensorData : Reading) : M Reading :=
  if js_not (sensorData !! "timestamp") then
    now ← new_Date_toISOString ;
    mret (<["timestamp" := JsStr now]> sensorData)
  else mret sensorData.

Definition handleSensorData (sensorData : Reading) : M HandleResult :=
  try_catch
    (sensorData ← fill_timestamp sensorData ;
     addReading sensorData ;;
     appendToCSVLog sensorData ;;
     Ws.broadcastToClients sensorData ;;
     (store ← getDataStore ;
      interpolate [sensorData !! "ppb"; sensorData !! "temperature";
                   sensorData !! "humidity"] ;;
      console (LogSensor (sensorData !! "ppb")
                         (sensorData !! "temperature")
                         (sensorData !! "humidity")) ;;
      mret {| success := true;
              readingCount := length (Store.readings store) |}))
    (fun e => console (LogHandleError e) ;; throw e).

Definition getLatestReading : M (option Reading) :=
  store ← getDataStore ;
  if length (Store.readings store) =? 0 then mret None
  else mret (Store.readings store !! (length (Store.readings store) - 1)).

Definition getAllReadings : M (list Reading) :=
  store ← getDataStore ;
  mret (Store.readings store).

End Service.

(** ** routes/sensor.routes.js *)

Module Routes.

Inductive Json : Type :=
| JsonMissing (missing : list string)
| JsonReceived (readingCount : nat)
| JsonError (error : string)
| JsonReading (reading : Reading)
| JsonAll (count : nat) (readings : list Reading).

Record Response : Type := mkResponse {
  status : nat;
  json : Json
}.

Definition requiredFields : list string :=
  ["timestamp"; "sensor_sn"; "ppb"; "temperature"; "humidity"].

(** [requiredFields.filter(field => !(field in sensorData))] *)
Definition missing_fields (sensorData : JsObject) : list string :=
  List.filter (fun field => negb (js_in field sensorData)) requiredFields.

(** [router.post('/data', ...)] on the request body as [express.json()]
    parsed it; a request without a JSON object as body has no property
    at all, like the empty object. *)
Definition post_data (body : JsObject) : M Response :=
  try_catch
    (let sensorData := body in
     let missing := missing_fields sensorData in
     if 0 <? length missing then
       mret {| status := 400; json := JsonMissing missing |}
     else
       result ← Service.handleSensorData sensorData ;
       mret {| status := 200;
               json := JsonReceived (Service.readingCount result) |})
    (fun e => console (LogRouteError e) ;;
              mret {| status := 500; json := JsonError e |}).

(** [router.get('/latest', ...)]; a stored reading is an object, which
    [!latest] never takes for absent. *)
Definition get_latest : M Response :=
  try_catch
    (latest ← Service.getLatestReading ;
     match latest with
     | None => mret {| status := 404;
                       json := JsonError "No readings available yet" |}
     | Some r => mret {| status := 200; json := JsonReading r |}
     end)
    (fun e => console (LogRouteError e) ;;
              mret {| status := 500; json := JsonError e |}).

(** [router.get('/all', ...)] *)
Definition get_all : M Response :=
  try_catch
    (readings ← Service.getAllReadings ;
     mret {| status := 200; json := JsonAll (length readings) readings |})
    (fun e => console (LogRouteError e) ;;
              mret {| status := 500; json := JsonError e |}).

End Routes.

(** ** The process: what can happen to it, one event at a time *)

(** A handshake completed by the [ws] library, the events that the library
    raises on a socket ([EvSocketState] is a change of [readyState], or of
    the health of the connection, that the library makes on its own), the
    three HTTP requests, and a call of the exported [clearReadings]. *)
Inductive Event : Type :=
| EvConnection (clientIp : string) (broken : bool)
| EvMessage (ws : nat) (data : option JsValue)
| EvSocketState (ws : nat) (st : ReadyState) (broken : bool)
| EvClose (ws : nat)
| EvError (ws : nat) (message : string)
| EvPostData (body : JsObject)
| EvGetLatest
| EvGetAll
| EvClearReadings.

(** The [ws] library accepts a handshake: a new open socket with a new
    identity. *)
Definition accept (clientIp : string) (broken : bool) : M nat :=
  ws ← gets next_socket ;
  modify (fun w =>
            set_next_socket (S ws)
              (set_sockets (<[ws := mkSocket clientIp OPEN broken []]>
                              (sockets w)) w)) ;;
  mret ws.

(** The value of the [readyState] constants. *)
Definition rank (st : ReadyState) : nat :=
  match st with CONNECTING => 0 | OPEN => 1 | CLOSING => 2 | CLOSED => 3 end.

(** The [ws] library moves a socket along [CONNECTING], [OPEN], [CLOSING],
    [CLOSED], never back; the connection may start or stop raising on
    [send] at the same time. *)
Definition socket_state (ws : nat) (st : ReadyState) (broken : bool)
  : M unit :=
  modify (fun w =>
            match sockets w !! ws with
            | Some s =>
                if rank (readyState s) <=? rank st then
                  set_sockets
                    (<[ws := mkSocket (remoteAddress s) st broken
                               (inbox s)]> (sockets w)) w
                else w
            | None => w
            end).

(** Run the handler [h] that was registered on socket [ws] with the
    address it captured; an identity that names no socket has no handler. *)
Definition with_socket (ws : nat) (h : string -> M unit) : M unit :=
  s ← gets (fun w => sockets w !! ws) ;
  match s with
  | Some sock => h (remoteAddress sock)
  | None => mret tt
  end.

Definition handle (ev : Event) : M unit :=
  match ev with
  | EvConnection clientIp broken =>
      server ← gets wsServer ;
      if server : bool then
        ws ← accept clientIp broken ;
        Ws.on_connection ws clientIp
      else mret tt
  | EvMessage ws data => with_socket ws (fun ip => Ws.on_message ws ip data)
  | EvSocketState ws st broken => socket_state ws st broken
  | EvClose ws =>
      broken ← gets (fun w =>
                       from_option send_throws true (sockets w !! ws)) ;
      socket_state ws CLOSED broken ;;
      with_socket ws (fun ip => Ws.on_close ws ip)
  | EvError ws message => with_socket ws (fun ip => Ws.on_error ws ip message)
  | EvPostData body => Routes.post_data body ;; mret tt
  | EvGetLatest => Routes.get_latest ;; mret tt
  | EvGetAll => Routes.get_all ;; mret tt
  | EvClearReadings => on_dataStore Store.clearReadings
  end.

(** Events are handled one after the other; an exception that leaves a
    handler ends the process. *)
Fixpoint run (evs : list Event) : M unit :=
  match evs with
  | [] => mret tt
  | ev :: rest => handle ev ;; run rest
  end.

(** The process after [server.js] has run its start-up: the store is
    initialised and the WebSocket server is set up. *)
Definition boot (clock : nat -> string) (csv_writable : bool) : World :=
  let w0 := mkWorld Store.dataStore false [] ∅ 0 [] csv_writable clock 0 [] in
  let start :=
    now ← new_Date_toISOString ;
    on_dataStore (Store.initializeStorage now) ;;
    Ws.setupWebSocket in
  snd (start w0).

(** ** storage/data.store.js: the range query *)

Module TimeRange.

(** [TimeClip(ToNumber(x))] for a number: the integral part when the
    number is finite and at most 8.64e15 in absolute value, [None] (that
    is [NaN]) otherwise. *)
Definition TimeClip (x : spec_float) : option Z :=
  match x with
  | S754_zero _ => Some 0%Z
  | S754_finite s m e =>
      let limit := 8640000000000000%Z in
      let in_range :=
        if (0 <=? e)%Z then (Z.pos m * 2 ^ e <=? limit)%Z
        else (Z.pos m <=? limit * 2 ^ (- e))%Z in
      let magnitude :=
        if (0 <=? e)%Z then (Z.pos m * 2 ^ e)%Z
        else (Z.pos m / 2 ^ (- e))%Z in
      if in_range then Some (if s then (- magnitude)%Z else magnitude)
      else None
  | _ => None
  end.

(** An argument of [getReadingsByTimeRange]: a [Date] object, as the
    function documents it, given by its time value ([None] for an invalid
    date), or any other value ([None] for [undefined]). *)
Inductive DateArg : Type :=
| ADate (t : option Z)
| AValue (v : option JsValue).

Section WithDate.

(** [Date.parse] on a string, and the string that a convertible object or
    array becomes: both are the platform's. *)
Variable Date_parse : string -> option Z.
Variable ToString : JsValue -> string.

(** [new Date(v).getTime()] for the value [v] of a property ([None] when
    the property is absent): the instant in milliseconds, [None] for the
    [NaN] of an invalid date; the construction raises when [v] cannot be
    converted to a primitive value. *)
Definition Date_getTime (v : option JsValue) : Outcome (option Z) :=
  match v with
  | None => Returned None
  | Some JsNull => Returned (Some 0%Z)
  | Some (JsBool b) => Returned (Some (if b then 1%Z else 0%Z))
  | Some (JsNum x) => Returned (TimeClip x)
  | Some (JsStr s) => Returned (Date_parse s)
  | Some o =>
      if can_convert o then Returned (Date_parse (ToString o))
      else Thrown TypeError_convert
  end.

(** [a >= b] and [a <= b] on numbers that may be [NaN]. *)
Definition js_ge (a b : option Z) : bool :=
  match a, b with
  | Some x, Some y => (y <=? x)%Z
  | _, _ => false
  end.

Definition js_le (a b : option Z) : bool :=
  match a, b with
  | Some x, Some y => (x <=? y)%Z
  | _, _ => false
  end.

(** [readings.filter(reading => ...)] with the callback of
    [getReadingsByTimeRange]: the first reading whose date cannot be
    constructed ends the call. *)
Fixpoint filter_range (start end_ : option Z) (rs : list Reading)
  : Outcome (list Reading) :=
  match rs with
  | [] => Returned []
  | reading :: rest =>
      match Date_getTime (reading !! "timestamp") with
      | Thrown e => Thrown e
      | Returned readingTime =>
          match filter_range start end_ rest with
          | Thrown e => Thrown e
          | Returned kept =>
              Returned (if js_ge readingTime start && js_le readingTime end_
                        then reading :: kept else kept)
          end
      end
  end.

(** [new Date(a).getTime()] for an argument: a [Date] object is copied,
    any other value goes through the conversion. *)
Definition new_Date_getTime (a : DateArg) : Outcome (option Z) :=
  match a with
  | ADate t => Returned t
  | AValue v => Date_getTime v
  end.

(** The two bounds are computed, in this order, before the filter. *)
Definition getReadingsByTimeRange (startTime endTime : DateArg)
    (ds : Store.DataStore) : Outcome (list Reading) :=
  match new_Date_getTime startTime with
  | Thrown e => Thrown e
  | Returned start =>
      match new_Date_getTime endTime with
      | Thrown e => Thrown e
      | Returned end_ => filter_range start end_ (Store.readings ds)
      end
  end.

End WithDate.

End TimeRange.

(** ** services/sensor.service.js: the creation of the CSV log *)

Module CsvLog.

(** The part of the file system that [initializeCsvLog] looks at: whether
    the [logs] directory exists, the content of [sensor_readings.csv] when
    it exists, and whether a call that writes raises. *)
Record Files : Type := mkFiles {
  logsDir : bool;
  csvFile : option string;
  fs_raises : bool
}.

Definition header : string :=
  "timestamp,sensor_sn,ppb,temperature,humidity,adc_gas,adc_temp,adc_hum"
  +:+ String (Ascii.ascii_of_nat 10) "".

(** [fs.mkdirSync(logsDir, { recursive: true })] *)
Definition mkdirSync (fs : Files) : Outcome unit * Files :=
  if fs_raises fs then (Thrown "EACCES", fs)
  else (Returned tt, mkFiles true (csvFile fs) (fs_raises fs)).

(** [fs.writeFileSync(CSV_LOG_PATH, content)] *)
Definition writeFileSync (content : string) (fs : Files)
  : Outcome unit * Files :=
  if fs_raises fs then (Thrown "EACCES", fs)
  else if logsDir fs then
    (Returned tt, mkFiles (logsDir fs) (Some content) (fs_raises fs))
  else (Thrown "ENOENT", fs).

(** The result carries whether the line [CSV log file created] was
    written to the console. *)
Definition initializeCsvLog (fs : Files) : Outcome unit * Files * bool :=
  match (if negb (logsDir fs) then mkdirSync fs else (Returned tt, fs)) with
  | (Thrown e, fs1) => (Thrown e, fs1, false)
  | (Returned _, fs1) =>
      match csvFile fs1 with
      | Some _ => (Returned tt, fs1, false)
      | None =>
          match writeFileSync header fs1 with
          | (Returned _, fs2) => (Returned tt, fs2, true)
          | (Thrown e, fs2) => (Thrown e, fs2, false)
          end
      end
  end.

End CsvLog.

(** ** frontend/src/components/Dashboard.tsx: the window of a graph *)

Module Dashboard.

(** [const newArr = [...arr]; newArr.shift(); newArr.push(value)] *)
Definition updateArrayWithHistory {A : Type} (arr : list A) (value : A)
  : list A :=
  tail arr ++ [value].

(** The successive states of one series of [graphData] over some ticks. *)
Definition updates {A : Type} (arr : list A) (values : list A) : list A :=
  foldl updateArrayWithHistory arr values.

End Dashboard.

(** ** Vocabulary of the properties *)

(** [m] leaves [P] standing, whether it returns or throws. *)
Definition preserves {A : Type} (P : World -> Prop) (m : M A) : Prop :=
  forall w, P w -> P (snd (m w)).

(** [m] never throws. *)
Definition returns {A : Type} (m : M A) : Prop :=
  forall w, exists a, fst (m w) = Returned a.

(** An open socket that does not raise on [send]. *)
Definition deliverable (w : World) (client : nat) : bool :=
  match sockets w !! client with
  | Some s => is_open (readyState s) && negb (send_throws s)
  | None => false
  end.

(** An open socket that raises on [send]. *)
Definition failing (w : World) (client : nat) : bool :=
  match sockets w !! client with
  | Some s => is_open (readyState s) && send_throws s
  | None => false
  end.

(** The world after [m] has been put on the wire for [client]. *)
Definition delivered (client : nat) (m : WsMessage) (w : World) : World :=
  match sockets w !! client with
  | Some s =>
      set_trace (trace w ++ [FxSend client m])
        (set_sockets
           (<[client := mkSocket (remoteAddress s) (readyState s)
                          (send_throws s) (inbox s ++ [m])]> (sockets w)) w)
  | None => w
  end.

(** The [console.error] lines of failed sends among some effects. *)
Definition send_failures (fxs : list Effect) : nat :=
  length (List.filter
            (fun fx => match fx with
                       | FxLog (LogWsSendFailed _) => true
                       | _ => false
                       end) fxs).

Definition not_store_write (fx : Effect) : Prop := is_store_write fx = false.
Definition not_send (fx : Effect) : Prop := is_send fx = false.

(** The store is [ds], and since the trace was [t] nothing has written the
    store. *)
Definition after_append (ds : Store.DataStore) (t : list Effect) (x : World)
  : Prop :=
  store x = ds /\
  exists post, trace x = t ++ post /\ Forall not_store_write post.

(** The reading as [handleSensorData] stores it: the submitted object,
    with [timestamp] set to the instant read when it was absent or
    falsy. *)
Definition stamped (sensorData : Reading) (w : World) : Reading :=
  if js_not (sensorData !! "timestamp") then
    <["timestamp" := JsStr (clock w (clock_reads w))]> sensorData
  else sensorData.

(** The world after the [ws] library has accepted a handshake. *)
Definition accepted (clientIp : string) (broken : bool) (w : World) : World :=
  set_next_socket (S (next_socket w))
    (set_sockets (<[next_socket w := mkSocket clientIp OPEN broken []]>
                    (sockets w)) w).

(** The server is set up and the set of subscribers has no duplicate. *)
Definition hub_ok (w : World) : Prop :=
  wsServer w = true /\ NoDup (connectedClients w).

(** Socket [ws] is closed, is not in the set, is older than any socket to
    come, and has received [inb]. *)
Definition closed_out (ws : nat) (inb : list WsMessage) (x : World) : Prop :=
  (ws ∉ connectedClients x) /\
  ws < next_socket x /\
  exists s, sockets x !! ws = Some s /\ readyState s = CLOSED /\ inbox s = inb.

(** A frame that parses to an object whose [type] is the string
    [ping]. *)
Definition ping_frame (data : option JsValue) : bool :=
  match data with
  | Some (JsObj fields) => Ws.is_ping (Ws.obj_get "type" fields)
  | _ => false
  end.

(** The events that come from the WebSocket side or only read the
    store. *)
Definition hub_event (ev : Event) : bool :=
  match ev with
  | EvPostData _ | EvClearReadings => false
  | _ => true
  end.

(** The line of [sensor_readings.csv] for a reading. *)
Definition csv_row (sensorData : Reading) : CsvRow :=
  map (fun k => sensorData !! k) Service.csv_columns.

(** Whether an outcome is a return. *)
Definition returned {A : Type} (o : Outcome A) : bool :=
  match o with Returned _ => true | Thrown _ => false end.

(** The call of [addReading] that [handleSensorData] makes. *)
Definition appended (sensorData : Reading) (w : World) : Store.Call :=
  Store.addReading (stamped sensorData w) (store w).

(** That call returns: it evicts nothing, or the timestamp of the reading
    it evicts can be converted for the eviction line. *)
Definition append_returns (sensorData : Reading) (w : World) : bool :=
  returned (Store.outcome (appended sensorData w)).

(** The three values of the [[SENSOR]] console line can be converted. *)
Definition loggable (r : Reading) : bool :=
  forallb convertible [r !! "ppb"; r !! "temperature"; r !! "humidity"].

(** No log line of [handleSensorData] raises for this object in this
    world. *)
Definition ingests_cleanly (sensorData : Reading) (w : World) : bool :=
  append_returns sensorData w && loggable (stamped sensorData w).

(** The world after the append of [handleSensorData]: the clock has been
    read if the timestamp had to be filled, and the store and the trace are
    as the call of [addReading] left them. *)
Definition appended_world (sensorData : Reading) (w : World) : World :=
  let call := appended sensorData w in
  set_trace (trace w ++ Store.effects call)
    (set_store (Store.after call)
       (if js_not (sensorData !! "timestamp")
        then set_clock_reads (S (clock_reads w)) w else w)).

(** The world in which [handleSensorData] starts its broadcast, when the
    append has returned: the CSV text has been appended, or the failure to
    build or to write it logged. *)
Definition before_broadcast (sensorData : Reading) (w : World) : World :=
  let r := stamped sensorData w in
  let w2 := appended_world sensorData w in
  if forallb convertible (csv_row r) then
    if csv_writable w then
      set_trace (trace w2 ++ [FxCsv (csv_row r)])
        (set_csv_log (csv_log w ++ [csv_row r]) w2)
    else set_trace (trace w2 ++ [FxLog (LogCsvWriteFailed "EACCES")]) w2
  else set_trace (trace w2 ++ [FxLog (LogCsvWriteFailed TypeError_convert)]) w2.

(** The instant that the broadcast of a submitted reading carries: the
    clock is read once before it when the timestamp had to be filled. *)
Definition broadcast_instant (sensorData : Reading) (w : World) : string :=
  clock w (if js_not (sensorData !! "timestamp")
           then S (clock_reads w) else clock_reads w).

(** The instant of a timestamp: what [new Date(v).getTime()] returns,
    [None] for [NaN] and for a construction that raises. *)
Definition instant (Date_parse : string -> option Z)
    (ToString : JsValue -> string) (v : option JsValue) : option Z :=
  match TimeRange.Date_getTime Date_parse ToString v with
  | Returned t => t
  | Thrown _ => None
  end.

(** The instant of the reading lies within the two bounds. *)
Definition within (Date_parse : string -> option Z)
    (ToString : JsValue -> string) (start end_ : option Z) (r : Reading)
  : bool :=
  TimeRange.js_ge (instant Date_parse ToString (r !! "timestamp")) start &&
  TimeRange.js_le (instant Date_parse ToString (r !! "timestamp")) end_.

(** The timestamp of every stored reading can be converted to a primitive
    value. *)
Definition dated (ds : Store.DataStore) : bool :=
  forallb (fun r => convertible (r !! "timestamp")) (Store.readings ds).

(** The date of an argument can be constructed. *)
Definition bound_ok (a : TimeRange.DateArg) : bool :=
  match a with
  | TimeRange.ADate _ => true
  | TimeRange.AValue v => convertible v
  end.

(** The instant of an argument, [None] for [NaN] and for a construction
    that raises. *)
Definition bound (Date_parse : string -> option Z)
    (ToString : JsValue -> string) (a : TimeRange.DateArg) : option Z :=
  match a with
  | TimeRange.ADate t => t
  | TimeRange.AValue v => instant Date_parse ToString v
  end.

(** A call of [getReadingsByTimeRange] with these arguments on this store
    constructs all its dates. *)
Definition range_returns (startTime endTime : TimeRange.DateArg)
    (ds : Store.DataStore) : bool :=
  bound_ok startTime && bound_ok endTime && dated ds.

(** Every reading of the store has the five required properties. *)
Definition complete_readings (ds : Store.DataStore) : Prop :=
  forall r, r ∈ Store.readings ds ->
    forall f, f ∈ Routes.requiredFields -> is_Some (r !! f).

(** Every socket is older than the next one to be accepted. *)
Definition sockets_bound (w : World) : Prop :=
  forall k, is_Some (sockets w !! k) -> k < next_socket w.

(** The side conditions of the [Frame] lemmas for a property that reads
    only fields the step does not write. *)
Ltac frame_step :=
  intros; unfold delivered;
  repeat match goal with
         | |- context [match ?x with _ => _ end] => destruct x
         end;
  simpl in *; auto.

Ltac frame_with lem :=
  apply lem; try solve [frame_step].

(** Membership in a list that is written out. *)
Ltac in_list := apply list_elem_of_In; vm_compute; auto 10.

(** ** Sample data *)

Module Sample.

(** The number [p], as [p * 2^0]. *)
Definition num (p : positive) : JsValue := JsNum (S754_finite false p 0).

(** A body without [timestamp]. *)
Definition untimed (ppb : positive) : JsObject :=
  <["sensor_sn" := JsStr "DGS2-001"]>
    (<["ppb" := num ppb]>
       (<["temperature" := num 23]> (<["humidity" := num 65]> ∅))).

Definition reading (ppb : positive) : Reading :=
  <["timestamp" := JsStr "2024-01-30T10:30:45.123Z"]> (untimed ppb).

(** What the clock shows at its successive readings. *)
Definition clock (n : nat) : string :=
  match n with
  | 0 => "2024-01-30T10:30:40.000Z"
  | 1 => "2024-01-30T10:30:41.000Z"
  | 2 => "2024-01-30T10:30:42.000Z"
  | 3 => "2024-01-30T10:30:43.000Z"
  | 4 => "2024-01-30T10:30:44.000Z"
  | _ => "2024-01-30T10:30:59.000Z"
  end.

Definition started : World := boot clock true.

(** Three subscribers; the connection of the second is closed, and its
    ['close'] event has not been handled yet. *)
Definition three_clients : World :=
  snd (run [EvConnection "10.0.0.1" false;
            EvConnection "10.0.0.2" false;
            EvConnection "10.0.0.3" false;
            EvSocketState 1 CLOSED false] started).

(** One subscriber. *)
Definition one_client : World :=
  snd (run [EvConnection "10.0.0.1" false] started).

(** A parser that knows no string, and a conversion of objects; the
    readings below carry numbers. *)
Definition parse (s : string) : option Z := None.
Definition object_string (v : JsValue) : string := "[object Object]".

(** A value that cannot be converted to a string. *)
Definition unprintable : JsValue := JsObj [("toString", num 1)].

(** A reading whose [timestamp] is the number [t]. *)
Definition at_ms (t : positive) : Reading :=
  <["timestamp" := num t]> (untimed 1).

(** Subscriber A joins, reading 1 is posted, subscriber B joins. *)
Definition a_then_b : World :=
  snd (run [EvConnection "10.0.0.1" false;
            EvPostData (reading 1);
            EvConnection "10.0.0.2" false] started).

(** A process whose CSV log cannot be written, with one subscriber. *)
Definition read_only_log : World :=
  snd (run [EvConnection "10.0.0.1" false] (boot clock false)).

End Sample.

(** * Properties *)

(** ** The store *)

Section StoreFacts.

Import Store.

Variable cap : nat.

Implicit Types (r : Reading) (rs : list Reading) (ds : DataStore).

Lemma addReadingCap_metadata r ds :
  metadata (after (addReadingCap cap r ds)) =
  {| initialized := initialized (metadata ds);
     totalReadingsReceived := S (totalReadingsReceived (metadata ds)) |}.
Proof.
  unfold addReadingCap.
  destruct (cap <? length (readings ds ++ [r])); [|reflexivity].
  destruct (readings ds ++ [r]) as [|x l]; [reflexivity|].
  destruct (convertible (x !! "timestamp")); reflexivity.
Qed.

(** One append on a store within its bound: the sequence is the pushed
    one without its first [k] elements, where [k] is by how much the
    pushed sequence exceeds the bound (0 or 1), and those are the ones
    removed. *)
Lemma addReadingCap_readings r ds :
  length (readings ds) <= cap ->
  let pushed := readings ds ++ [r] in
  let k := length pushed - cap in
  readings (after (addReadingCap cap r ds)) = drop k pushed /\
  shifted (effects (addReadingCap cap r ds)) = take k pushed /\
  length (readings (after (addReadingCap cap r ds))) <= cap.
Proof.
  intros Hlen pushed k. unfold addReadingCap. fold pushed.
  assert (Hp : length pushed = S (length (readings ds))).
  { unfold pushed. rewrite length_app. simpl. lia. }
  destruct (Nat.ltb_spec cap (length pushed)) as [Hlt | Hge].
  - assert (Hk : k = 1) by (unfold k; lia).
    rewrite Hk. destruct pushed as [|x rest] eqn:E; [simpl in Hp; lia|].
    simpl in Hp. destruct (convertible (x !! "timestamp")); simpl;
      rewrite take_0; repeat split; try reflexivity; lia.
  - assert (Hk : k = 0) by (unfold k; lia).
    rewrite Hk, drop_0, take_0. simpl.
    repeat split; try reflexivity; lia.
Qed.

Lemma appendAll_cons r rs ds :
  appendAll cap (r :: rs) ds =
  (fst (appendAll cap rs (after (addReadingCap cap r ds))),
   effects (addReadingCap cap r ds) ++
   snd (appendAll cap rs (after (addReadingCap cap r ds)))).
Proof.
  simpl. destruct (appendAll cap rs (after (addReadingCap cap r ds)))
    as [ds2 fx2]. reflexivity.
Qed.

Lemma shifted_app (fx1 fx2 : list Effect) :
  shifted (fx1 ++ fx2) = shifted fx1 ++ shifted fx2.
Proof. unfold shifted. apply omap_app. Qed.

(** A run of appends on a store within its bound leaves the last [cap]
    elements of everything it has held, and has removed the others,
    oldest first. *)
Lemma appendAll_readings rs : forall ds,
  length (readings ds) <= cap ->
  let held := readings ds ++ rs in
  let k := length held - cap in
  readings (fst (appendAll cap rs ds)) = drop k held /\
  shifted (snd (appendAll cap rs ds)) = take k held.
Proof.
  induction rs as [|r rs IH]; intros ds Hlen held k.
  - subst held k. rewrite app_nil_r.
    replace (length (readings ds) - cap) with 0 by lia.
    rewrite drop_0, take_0. split; reflexivity.
  - rewrite appendAll_cons. cbn [fst snd].
    destruct (addReadingCap_readings r ds Hlen) as (Hr & Hs & Hb).
    destruct (IH _ Hb) as [IHr IHs].
    rewrite IHr, shifted_app, IHs, Hs, Hr. clear IH IHr IHs Hr Hs Hb.
    set (pushed := readings ds ++ [r]).
    set (k1 := length pushed - cap).
    assert (Hheld : held = pushed ++ rs).
    { unfold held, pushed. rewrite <- app_assoc. reflexivity. }
    assert (Hk1 : k1 <= length pushed) by (unfold k1; lia).
    assert (Hd : drop k1 pushed ++ rs = drop k1 held).
    { rewrite Hheld. symmetry. apply drop_app_le. exact Hk1. }
    assert (Ht : take k1 pushed = take k1 held).
    { rewrite Hheld. symmetry. apply take_app_le. exact Hk1. }
    rewrite Hd, Ht.
    assert (Hk : k1 + (length (drop k1 held) - cap) = k).
    { rewrite length_drop. unfold k. rewrite Hheld, length_app.
      unfold k1. lia. }
    rewrite drop_drop, take_take_drop, Hk. split; reflexivity.
Qed.

Lemma appendAll_total rs : forall ds,
  totalReadingsReceived (metadata (fst (appendAll cap rs ds))) =
  totalReadingsReceived (metadata ds) + length rs /\
  initialized (metadata (fst (appendAll cap rs ds))) =
  initialized (metadata ds).
Proof.
  induction rs as [|r rs IH]; intros ds.
  - simpl. split; [lia | reflexivity].
  - rewrite appendAll_cons. cbn [fst].
    destruct (IH (after (addReadingCap cap r ds))) as [IHt IHi].
    rewrite IHt, IHi, addReadingCap_metadata. simpl. split; [lia | reflexivity].
Qed.

Lemma getLatestReading_last ds : getLatestReading ds = last (readings ds).
Proof.
  unfold getLatestReading. rewrite last_lookup.
  destruct (readings ds) as [|x l]; [reflexivity|].
  simpl. rewrite Nat.sub_0_r. reflexivity.
Qed.

Lemma last_drop (l : list Reading) (k : nat) :
  k < length l -> last (drop k l) = last l.
Proof.
  intros Hk. rewrite !last_lookup, lookup_drop, length_drop.
  f_equal. lia.
Qed.

End StoreFacts.

(** ** Reasoning about operations *)

Section Combinators.

Context {A B : Type}.
Variable P : World -> Prop.

Lemma preserves_ret (a : A) : preserves P (mret a).
Proof. intros w Hw. exact Hw. Qed.

Lemma preserves_throw (e : string) : preserves P (@throw A e).
Proof. intros w Hw. exact Hw. Qed.

Lemma preserves_gets (f : World -> A) : preserves P (gets f).
Proof. intros w Hw. exact Hw. Qed.

Lemma preserves_bind (m : M A) (f : A -> M B) :
  preserves P m -> (forall a, preserves P (f a)) -> preserves P (m ≫= f).
Proof.
  intros Hm Hf w Hw. unfold mbind, M_bind.
  specialize (Hm w Hw). destruct (m w) as [[a|e] w1]; simpl in *.
  - apply Hf. exact Hm.
  - exact Hm.
Qed.

Lemma preserves_try_catch (m : M A) (h : string -> M A) :
  preserves P m -> (forall e, preserves P (h e)) ->
  preserves P (try_catch m h).
Proof.
  intros Hm Hh w Hw. unfold try_catch.
  specialize (Hm w Hw). destruct (m w) as [[a|e] w1]; simpl in *.
  - exact Hm.
  - apply Hh. exact Hm.
Qed.

Lemma returns_ret (a : A) : returns (mret a).
Proof. intros w. exists a. reflexivity. Qed.

Lemma returns_gets (f : World -> A) : returns (gets f).
Proof. intros w. exists (f w). reflexivity. Qed.

Lemma returns_bind (m : M A) (f : A -> M B) :
  returns m -> (forall a, returns (f a)) -> returns (m ≫= f).
Proof.
  intros Hm Hf w. unfold mbind, M_bind.
  destruct (Hm w) as [a Ha]. destruct (m w) as [[a'|e] w1]; simpl in *.
  - apply Hf.
  - discriminate.
Qed.

Lemma returns_try_catch (m : M A) (h : string -> M A) :
  (forall e, returns (h e)) -> returns (try_catch m h).
Proof.
  intros Hh w. unfold try_catch.
  destruct (m w) as [[a|e] w1]; simpl.
  - exists a. reflexivity.
  - apply Hh.
Qed.

End Combinators.

Lemma returns_modify (f : World -> World) : returns (modify f).
Proof. intros w. exists tt. reflexivity. Qed.

Lemma returns_emit (fxs : list Effect) : returns (emit fxs).
Proof. apply returns_modify. Qed.

Lemma preserves_interpolate (P : World -> Prop) vs :
  preserves P (interpolate vs).
Proof.
  intros w Hw. unfold interpolate. destruct (forallb convertible vs); exact Hw.
Qed.

Lemma returns_new_Date : returns new_Date_toISOString.
Proof. intros w. eexists. reflexivity. Qed.

Lemma returns_on_dataStore f : returns (on_dataStore f).
Proof.
  intros w. exists tt. unfold on_dataStore.
  destruct (f (store w)). reflexivity.
Qed.

Lemma ws_send_eq client m w :
  ws_send client m w =
  if deliverable w client then (Returned tt, delivered client m w)
  else
    match send_error (sockets w !! client) with
    | Some e => (Thrown e, set_trace (trace w ++ [FxSendThrew client]) w)
    | None => (Returned tt, w)
    end.
Proof.
  unfold ws_send, deliverable, delivered, send_error.
  destruct (sockets w !! client) as [s|]; [|reflexivity].
  destruct (readyState s), (send_throws s); reflexivity.
Qed.

Lemma send_error_failing w client :
  failing w client = true ->
  send_error (sockets w !! client) = Some "send failed".
Proof.
  unfold failing, send_error.
  destruct (sockets w !! client) as [s|]; [|discriminate].
  destruct (readyState s), (send_throws s); try discriminate; reflexivity.
Qed.

Lemma inbox_of_delivered client m w c :
  deliverable w client = true ->
  inbox_of (delivered client m w) c =
  if bool_decide (c = client) then inbox_of w c ++ [m] else inbox_of w c.
Proof.
  unfold deliverable, delivered, inbox_of. intros Hd.
  destruct (sockets w !! client) as [s|] eqn:Hs; [|discriminate].
  simpl. case_bool_decide as Hc.
  - subst c. rewrite lookup_insert_eq, Hs. reflexivity.
  - rewrite lookup_insert_ne by congruence. reflexivity.
Qed.

Lemma deliverable_delivered client m w c :
  deliverable (delivered client m w) c = deliverable w c /\
  failing (delivered client m w) c = failing w c.
Proof.
  unfold deliverable, failing, delivered.
  destruct (sockets w !! client) as [s|] eqn:Hs; [|split; reflexivity].
  simpl. destruct (decide (c = client)) as [->|Hc].
  - rewrite lookup_insert_eq, Hs. split; reflexivity.
  - rewrite lookup_insert_ne by congruence. split; reflexivity.
Qed.

(** Stability of a property of the world under the primitive steps; each
    lemma below asks only for the steps its operation takes. *)
Section Frame.

Variable P : World -> Prop.

Hypothesis P_log :
  forall w e, P w -> P (set_trace (trace w ++ [FxLog e]) w).
Hypothesis P_clock :
  forall w, P w -> P (set_clock_reads (S (clock_reads w)) w).
Hypothesis P_delivered :
  forall w client m,
    P w -> deliverable w client = true -> P (delivered client m w).
Hypothesis P_threw :
  forall w client, P w -> P (set_trace (trace w ++ [FxSendThrew client]) w).
Hypothesis P_csv :
  forall w row, P w ->
    P (set_trace (trace w ++ [FxCsv row]) (set_csv_log (csv_log w ++ [row]) w)).

Lemma preserves_console e : preserves P (console e).
Proof. intros w Hw. apply P_log. exact Hw. Qed.

Lemma preserves_new_Date : preserves P new_Date_toISOString.
Proof. intros w Hw. apply P_clock. exact Hw. Qed.

Lemma preserves_ws_send client m : preserves P (ws_send client m).
Proof.
  intros w Hw. rewrite ws_send_eq.
  destruct (deliverable w client) eqn:Hd; simpl.
  - apply P_delivered; assumption.
  - destruct (send_error (sockets w !! client)); simpl;
      [apply P_threw|]; exact Hw.
Qed.

Lemma preserves_send_to payload client counts :
  preserves P (Ws.send_to payload client counts).
Proof.
  unfold Ws.send_to. apply preserves_bind; [apply preserves_gets|].
  intros [|]; [|apply preserves_ret].
  apply preserves_try_catch.
  - apply preserves_bind; [apply preserves_ws_send|].
    intros _. apply preserves_ret.
  - intros e. apply preserves_bind; [apply preserves_console|].
    intros _. apply preserves_ret.
Qed.

Lemma preserves_forEach payload clients : forall counts,
  preserves P (Ws.forEach payload clients counts).
Proof.
  induction clients as [|c rest IH]; intros counts; simpl.
  - apply preserves_ret.
  - apply preserves_bind; [apply preserves_send_to | apply IH].
Qed.

Lemma preserves_broadcastToClients sensorData :
  preserves P (Ws.broadcastToClients sensorData).
Proof.
  unfold Ws.broadcastToClients.
  apply preserves_bind; [apply preserves_gets|].
  intros [|]; simpl; [|apply preserves_console].
  apply preserves_bind; [apply preserves_new_Date|]. intros now.
  apply preserves_bind; [apply preserves_gets|]. intros clients.
  apply preserves_bind; [apply preserves_forEach|]. intros counts.
  apply preserves_bind; [apply preserves_gets|]. intros size.
  unfold Ws.when. destruct (0 <? size);
    [apply preserves_console | apply preserves_ret].
Qed.

Lemma preserves_on_message ws clientIp data :
  preserves P (Ws.on_message ws clientIp data).
Proof.
  unfold Ws.on_message. apply preserves_try_catch.
  - apply preserves_bind.
    { destruct data; [apply preserves_ret | apply preserves_throw]. }
    intros message. apply preserves_bind.
    { destruct message; simpl;
        first [apply preserves_ret | apply preserves_throw]. }
    intros ty. apply preserves_bind; [apply preserves_console|].
    intros _. destruct (Ws.is_ping ty); [|apply preserves_ret].
    apply preserves_bind; [apply preserves_new_Date|].
    intros now. apply preserves_ws_send.
  - intros e. apply preserves_console.
Qed.

Lemma preserves_appendToCSVLog sensorData :
  preserves P (Service.appendToCSVLog sensorData).
Proof.
  unfold Service.appendToCSVLog. apply preserves_try_catch.
  - apply preserves_bind; [apply preserves_interpolate|]. intros _.
    intros w Hw. unfold fs_appendFileSync.
    destruct (csv_writable w); simpl; [apply P_csv|]; exact Hw.
  - intros e. apply preserves_console.
Qed.

End Frame.

Lemma returns_send_to payload client counts :
  returns (Ws.send_to payload client counts).
Proof.
  unfold Ws.send_to. apply returns_bind; [apply returns_gets|].
  intros [|]; [|apply returns_ret].
  apply returns_try_catch. intros e.
  apply returns_bind; [apply returns_emit|]. intros _. apply returns_ret.
Qed.

Lemma returns_forEach payload clients : forall counts,
  returns (Ws.forEach payload clients counts).
Proof.
  induction clients as [|c rest IH]; intros counts; simpl.
  - apply returns_ret.
  - apply returns_bind; [apply returns_send_to | apply IH].
Qed.

Lemma returns_broadcastToClients sensorData :
  returns (Ws.broadcastToClients sensorData).
Proof.
  unfold Ws.broadcastToClients.
  apply returns_bind; [apply returns_gets|].
  intros [|]; simpl; [|apply returns_emit].
  apply returns_bind; [apply returns_new_Date|]. intros now.
  apply returns_bind; [apply returns_gets|]. intros clients.
  apply returns_bind; [apply returns_forEach|]. intros counts.
  apply returns_bind; [apply returns_gets|]. intros size.
  unfold Ws.when. destruct (0 <? size); [apply returns_emit | apply returns_ret].
Qed.

Lemma returns_appendToCSVLog sensorData :
  returns (Service.appendToCSVLog sensorData).
Proof.
  unfold Service.appendToCSVLog. apply returns_try_catch.
  intros e. apply returns_emit.
Qed.

Lemma returned_unit (m : M unit) w :
  returns m -> m w = (Returned tt, snd (m w)).
Proof.
  intros Hm. destruct (Hm w) as [[] Ha].
  destruct (m w) as [o w1]. simpl in *. subst o. reflexivity.
Qed.

(** ** The hub: one step of the fan-out *)

Lemma send_to_eq payload client counts w :
  Ws.send_to payload client counts w =
  if deliverable w client then
    (Returned (S (fst counts), snd counts), delivered client payload w)
  else if failing w client then
    (Returned (fst counts, S (snd counts)),
     set_trace (trace w ++ [FxSendThrew client;
                            FxLog (LogWsSendFailed "send failed")]) w)
  else (Returned counts, w).
Proof.
  unfold Ws.send_to, mbind, M_bind, gets, try_catch, Ws.client_open,
    deliverable, failing, delivered, ws_send, send_error.
  destruct (sockets w !! client) as [s|] eqn:Hs; [|reflexivity].
  destruct (readyState s) eqn:Ho; try reflexivity.
  cbn [is_open]. cbn beta iota. rewrite !Hs, !Ho.
  destruct (send_throws s); simpl; [|reflexivity].
  unfold set_trace. simpl. rewrite <- app_assoc. reflexivity.
Qed.

Lemma forEach_spec payload clients :
  NoDup clients ->
  forall counts w, exists w' fxs,
    Ws.forEach payload clients counts w =
      (Returned (fst counts + length (List.filter (deliverable w) clients),
                 snd counts + length (List.filter (failing w) clients)), w') /\
    (forall c, inbox_of w' c =
               if bool_decide (c ∈ clients) && deliverable w c
               then inbox_of w c ++ [payload] else inbox_of w c) /\
    (forall c, deliverable w' c = deliverable w c /\
               failing w' c = failing w c) /\
    trace w' = trace w ++ fxs /\
    send_failures fxs = length (List.filter (failing w) clients).
Proof.
  induction 1 as [|c rest Hc Hnd IH]; intros counts w.
  - exists w, []. simpl. rewrite !Nat.add_0_r, app_nil_r.
    destruct counts. repeat split; reflexivity.
  - simpl. unfold mbind, M_bind. rewrite send_to_eq.
    assert (Hexcl : deliverable w c = true -> failing w c = false).
    { unfold deliverable, failing. destruct (sockets w !! c) as [s|]; [|done].
      destruct (is_open (readyState s)), (send_throws s); done. }
    destruct (deliverable w c) eqn:Hd.
    + rewrite (Hexcl eq_refl).
      destruct (IH (S (fst counts), snd counts) (delivered c payload w))
        as (w' & fxs & Heq & Hin & Hst & Htr & Hfail).
      assert (Hsame : forall c0, deliverable (delivered c payload w) c0 =
                                 deliverable w c0 /\
                                 failing (delivered c payload w) c0 =
                                 failing w c0)
        by (intros; apply deliverable_delivered).
      rewrite (List.filter_ext _ _ (fun c0 => proj1 (Hsame c0))) in Heq.
      rewrite (List.filter_ext _ _ (fun c0 => proj2 (Hsame c0))) in Heq, Hfail.
      exists w', (FxSend c payload :: fxs). rewrite Heq. simpl.
      split; [do 3 f_equal; lia|].
      split; [|split; [|split]].
      * intros c0. rewrite Hin, (proj1 (Hsame c0)).
        rewrite inbox_of_delivered by exact Hd.
        destruct (decide (c0 = c)) as [->|Hne].
        -- rewrite (bool_decide_eq_false_2 (c ∈ rest)) by exact Hc.
           rewrite !bool_decide_eq_true_2 by (reflexivity || left).
           rewrite Hd. reflexivity.
        -- rewrite (bool_decide_eq_false_2 (c0 = c)) by exact Hne.
           rewrite (bool_decide_ext (c0 ∈ c :: rest) (c0 ∈ rest)); [reflexivity|].
           rewrite elem_of_cons. tauto.
      * intros c0. destruct (Hst c0) as [-> ->]. apply Hsame.
      * rewrite Htr. unfold delivered, deliverable in *.
        destruct (sockets w !! c); [|discriminate]. simpl.
        rewrite <- app_assoc. reflexivity.
      * exact Hfail.
    + destruct (failing w c) eqn:Hf.
      * set (w1 := set_trace _ w).
        destruct (IH (fst counts, S (snd counts)) w1)
          as (w' & fxs & Heq & Hin & Hst & Htr & Hfail).
        change (deliverable w1) with (deliverable w) in *.
        change (failing w1) with (failing w) in *.
        change (inbox_of w1) with (inbox_of w) in *.
        exists w', ([FxSendThrew c; FxLog (LogWsSendFailed "send failed")]
                    ++ fxs).
        rewrite Heq. simpl.
        split; [do 3 f_equal; lia|].
        split; [|split; [|split]].
        -- intros c0. rewrite Hin.
           destruct (decide (c0 = c)) as [->|Hne].
           ++ rewrite Hd, !andb_false_r. reflexivity.
           ++ rewrite (bool_decide_ext (c0 ∈ c :: rest) (c0 ∈ rest));
                [reflexivity|].
              rewrite elem_of_cons. tauto.
        -- exact Hst.
        -- rewrite Htr. unfold w1. simpl. rewrite <- app_assoc. reflexivity.
        -- unfold send_failures in *. simpl. rewrite Hfail. reflexivity.
      * destruct (IH counts w) as (w' & fxs & Heq & Hin & Hst & Htr & Hfail).
        exists w', fxs. rewrite Heq.
        split; [reflexivity|].
        split; [|split; [|split]]; try assumption.
        intros c0. rewrite Hin.
        destruct (decide (c0 = c)) as [->|Hne].
        -- rewrite Hd, !andb_false_r. reflexivity.
        -- rewrite (bool_decide_ext (c0 ∈ c :: rest) (c0 ∈ rest));
             [reflexivity|].
           rewrite elem_of_cons. tauto.
Qed.

(** ** The store: claims *)

(** C2.  After more than [cap] appends to a new store, [getAllReadings]
    has exactly [cap] elements, they are the last [cap] submitted readings
    in arrival order, the removed ones are the first ones in arrival order
    (one removal per append beyond the bound), and with a bound of at least
    one [getLatestReading] is the last submitted reading. *)
Theorem C2_overflow_keeps_most_recent
    (cap : nat) (rs : list Reading) (Hover : cap < length rs) :
  let ds := fst (Store.appendAll cap rs Store.dataStore) in
  length (Store.getAllReadings ds) = cap /\
  Store.getAllReadings ds = drop (length rs - cap) rs /\
  shifted (snd (Store.appendAll cap rs Store.dataStore)) =
    take (length rs - cap) rs /\
  (0 < cap -> Store.getLatestReading ds = last rs).
Proof.
  intros ds. unfold ds, Store.getAllReadings.
  destruct (appendAll_readings cap rs Store.dataStore) as [Hr Hs].
  { simpl. lia. }
  simpl in Hr, Hs. rewrite Hr, Hs, length_drop.
  split; [lia|]. split; [reflexivity|]. split; [reflexivity|].
  intros Hcap. rewrite getLatestReading_last, Hr.
  apply last_drop. lia.
Qed.

(** C2, the scenario: bound 3, readings with [ppb] 1, 2, 3, 4. *)
Lemma C2_overflow_witness :
  3 < length (map Sample.reading [1; 2; 3; 4]%positive) /\
  let ds := fst (Store.appendAll 3 (map Sample.reading [1; 2; 3; 4]%positive)
                   Store.dataStore) in
  Store.getAllReadings ds = map Sample.reading [2; 3; 4]%positive /\
  Store.getLatestReading ds = Some (Sample.reading 4) /\
  Store.totalReadingsReceived (Store.metadata ds) = 4.
Proof.
  assert (H : 3 < length (map Sample.reading [1; 2; 3; 4]%positive))
    by (simpl; lia).
  split; [exact H|].
  destruct (C2_overflow_keeps_most_recent 3 _ H) as (_ & Hall & _ & Hlast).
  split; [exact Hall|].
  split; [apply Hlast; lia | reflexivity].
Defined.

(** C3.  After any run of appends the counter has grown by the number of
    appends, whatever was removed; on a new store it is that number, while
    the number of readings held is the smaller of that number and the
    bound. *)
Theorem C3_totalReceived_counts_appends
    (cap : nat) (rs : list Reading) (ds : Store.DataStore) :
  Store.totalReadingsReceived (Store.metadata (fst (Store.appendAll cap rs ds)))
    = Store.totalReadingsReceived (Store.metadata ds) + length rs /\
  Store.totalReadingsReceived
    (Store.metadata (fst (Store.appendAll cap rs Store.dataStore)))
    = length rs /\
  length (Store.readings (fst (Store.appendAll cap rs Store.dataStore)))
    = Nat.min (length rs) cap.
Proof.
  split; [apply appendAll_total|].
  split; [rewrite (proj1 (appendAll_total cap rs Store.dataStore)); reflexivity|].
  destruct (appendAll_readings cap rs Store.dataStore) as [Hr _].
  { simpl. lia. }
  simpl in Hr. rewrite Hr, length_drop. lia.
Qed.

(** C4.  On a store that holds nothing, [getLatestReading] is [null] and
    the [/latest] route answers 404; after at most [cap] appends to it,
    [getAllReadings] is the submitted readings in arrival order, nothing
    has been removed, and [getLatestReading] is the last of them. *)
Theorem C4_within_capacity_and_empty
    (cap : nat) (rs : list Reading) (w : World)
    (Hempty : Store.readings (store w) = [])
    (Hfit : length rs <= cap) :
  let ds := fst (Store.appendAll cap rs (store w)) in
  Store.getAllReadings ds = rs /\
  Store.getLatestReading ds = last rs /\
  shifted (snd (Store.appendAll cap rs (store w))) = [] /\
  Store.getLatestReading (store w) = None /\
  Service.getLatestReading w = (Returned None, w) /\
  Routes.get_latest w =
    (Returned {| Routes.status := 404;
                 Routes.json := Routes.JsonError "No readings available yet" |},
     w).
Proof.
  intros ds. unfold ds, Store.getAllReadings.
  destruct (appendAll_readings cap rs (store w)) as [Hr Hs].
  { rewrite Hempty. simpl. lia. }
  rewrite Hempty in Hr, Hs. simpl in Hr, Hs.
  replace (length rs - cap) with 0 in Hr, Hs by lia.
  rewrite drop_0 in Hr. rewrite take_0 in Hs.
  split; [exact Hr|]. split; [rewrite getLatestReading_last, Hr; reflexivity|].
  split; [exact Hs|].
  unfold Routes.get_latest, Service.getLatestReading, Service.getDataStore,
    Store.getLatestReading, try_catch, mbind, M_bind, gets.
  rewrite Hempty. simpl. repeat split; reflexivity.
Qed.

Lemma C4_within_capacity_witness :
  let rs := map Sample.reading [1; 2]%positive in
  Store.readings (store Sample.started) = [] /\
  length rs <= 3 /\
  Store.getAllReadings (fst (Store.appendAll 3 rs (store Sample.started))) = rs /\
  Store.getLatestReading (fst (Store.appendAll 3 rs (store Sample.started)))
    = Some (Sample.reading 2) /\
  Store.getLatestReading (store Sample.started) = None.
Proof.
  intros rs.
  assert (He : Store.readings (store Sample.started) = []) by reflexivity.
  assert (Hf : length rs <= 3) by (simpl; lia).
  destruct (C4_within_capacity_and_empty 3 rs Sample.started He Hf)
    as (Hall & Hlast & _ & Hnone & _).
  repeat split; assumption.
Defined.

(** C10.  [clearReadings] leaves no reading ([getAllReadings] is empty,
    [getLatestReading] is [null]) and leaves the metadata, the counter and
    the initialisation instant, as they were; run on the singleton it
    touches nothing of the world but the store and the console. *)
Theorem C10_clear_keeps_metadata (ds : Store.DataStore) (w : World) :
  let ds' := fst (Store.clearReadings ds) in
  Store.getAllReadings ds' = [] /\
  Store.getLatestReading ds' = None /\
  Store.totalReadingsReceived (Store.metadata ds') =
    Store.totalReadingsReceived (Store.metadata ds) /\
  Store.initialized (Store.metadata ds') = Store.initialized (Store.metadata ds) /\
  Store.metadata ds' = Store.metadata ds /\
  handle EvClearReadings w =
    (Returned tt,
     set_trace (trace w ++ [FxClear;
                            FxLog (LogCleared (length (Store.readings (store w))))])
       (set_store {| Store.readings := [];
                     Store.metadata := Store.metadata (store w) |} w)).
Proof.
  simpl. repeat split; reflexivity.
Qed.

(** ** Ingestion *)

Lemma after_append_emit ds t x fxs :
  Forall not_store_write fxs ->
  after_append ds t x -> after_append ds t (set_trace (trace x ++ fxs) x).
Proof.
  intros Hfxs [Hs (post & Ht & Hp)]. split; [exact Hs|].
  exists (post ++ fxs). simpl. rewrite Ht, <- app_assoc.
  split; [reflexivity|]. apply Forall_app. split; assumption.
Qed.

Lemma after_append_delivered ds t x client m :
  after_append ds t x -> after_append ds t (delivered client m x).
Proof.
  intros H. unfold delivered. destruct (sockets x !! client); [|exact H].
  apply (after_append_emit ds t (set_sockets _ x) [FxSend client m]).
  - repeat constructor.
  - exact H.
Qed.

Lemma after_append_broadcast ds t sensorData :
  preserves (after_append ds t) (Ws.broadcastToClients sensorData).
Proof.
  apply preserves_broadcastToClients.
  - intros w e. apply after_append_emit. repeat constructor.
  - intros w H. exact H.
  - intros w client m H _. apply after_append_delivered. exact H.
  - intros w client. apply after_append_emit. repeat constructor.
Qed.

Lemma addReadingCap_effects cap r ds :
  Forall not_send (Store.effects (Store.addReadingCap cap r ds)) /\
  FxPush r ∈ Store.effects (Store.addReadingCap cap r ds).
Proof.
  unfold Store.addReadingCap.
  destruct (cap <? length (Store.readings ds ++ [r])).
  - destruct (Store.readings ds ++ [r]) as [|x l];
      [|destruct (convertible (x !! "timestamp"))]; simpl;
      (split; [repeat constructor | left]).
  - simpl. split; [repeat constructor | left].
Qed.

Lemma addReadingCap_latest cap r ds :
  0 < cap ->
  Store.getLatestReading (Store.after (Store.addReadingCap cap r ds)) = Some r.
Proof.
  intros Hcap. rewrite getLatestReading_last. unfold Store.addReadingCap.
  destruct (Nat.ltb_spec cap (length (Store.readings ds ++ [r]))) as [Hlt|Hge].
  - destruct (Store.readings ds) as [|x l] eqn:E; simpl in *; [lia|].
    destruct (convertible (x !! "timestamp")); simpl; apply last_snoc.
  - simpl. apply last_snoc.
Qed.

(** The only exception of an append is the one of the eviction line. *)
Lemma addReadingCap_outcome cap r ds :
  Store.outcome (Store.addReadingCap cap r ds) =
  if returned (Store.outcome (Store.addReadingCap cap r ds))
  then Returned tt else Thrown TypeError_convert.
Proof.
  unfold Store.addReadingCap.
  destruct (cap <? length (Store.readings ds ++ [r])); [|reflexivity].
  destruct (Store.readings ds ++ [r]) as [|x l] eqn:E.
  - destruct (Store.readings ds); discriminate.
  - destruct (convertible (x !! "timestamp")); reflexivity.
Qed.

(** An append raises exactly when it evicts a reading whose timestamp
    cannot be converted. *)
Lemma addReadingCap_returns cap r ds :
  returned (Store.outcome (Store.addReadingCap cap r ds)) =
  negb (cap <? length (Store.readings ds ++ [r])) ||
  convertible (head (Store.readings ds ++ [r]) ≫= (.!! "timestamp")).
Proof.
  unfold Store.addReadingCap.
  destruct (cap <? length (Store.readings ds ++ [r])); [|reflexivity].
  destruct (Store.readings ds ++ [r]) as [|x l] eqn:E.
  - destruct (Store.readings ds); discriminate.
  - simpl. destruct (convertible (x !! "timestamp")); reflexivity.
Qed.

Lemma fill_timestamp_eq sensorData w :
  Service.fill_timestamp sensorData w =
  (Returned (stamped sensorData w),
   if js_not (sensorData !! "timestamp")
   then set_clock_reads (S (clock_reads w)) w else w).
Proof.
  unfold Service.fill_timestamp, stamped.
  destruct (js_not (sensorData !! "timestamp")); reflexivity.
Qed.

Lemma appendToCSVLog_eq sensorData w :
  Service.appendToCSVLog sensorData w =
  (Returned tt,
   if forallb convertible (csv_row sensorData) then
     if csv_writable w then
       set_trace (trace w ++ [FxCsv (csv_row sensorData)])
         (set_csv_log (csv_log w ++ [csv_row sensorData]) w)
     else set_trace (trace w ++ [FxLog (LogCsvWriteFailed "EACCES")]) w
   else set_trace (trace w ++ [FxLog (LogCsvWriteFailed TypeError_convert)]) w).
Proof.
  unfold Service.appendToCSVLog, try_catch, interpolate, csv_row, mbind, M_bind.
  destruct (forallb convertible _); [|reflexivity].
  unfold fs_appendFileSync, mret, M_ret. cbn beta iota.
  destruct (csv_writable w); reflexivity.
Qed.

(** [handleSensorData], by cases on the two console lines that can raise:
    when the append raises nothing else is done; otherwise the CSV step and
    the broadcast of the stamped reading follow, and the call returns the
    number of readings held unless the [[SENSOR]] line raises. *)
Lemma handleSensorData_eq sensorData w :
  Service.handleSensorData sensorData w =
  let r := stamped sensorData w in
  if append_returns sensorData w then
    let w4 := snd (Ws.broadcastToClients r (before_broadcast sensorData w)) in
    if loggable r then
      (Returned {| Service.success := true;
                   Service.readingCount := length (Store.readings (store w4)) |},
       set_trace (trace w4 ++ [FxLog (LogSensor (r !! "ppb") (r !! "temperature")
                                        (r !! "humidity"))]) w4)
    else
      (Thrown TypeError_convert,
       set_trace (trace w4 ++ [FxLog (LogHandleError TypeError_convert)]) w4)
  else
    (Thrown TypeError_convert,
     set_trace (trace (appended_world sensorData w) ++
                [FxLog (LogHandleError TypeError_convert)])
       (appended_world sensorData w)).
Proof.
  cbv zeta. unfold Service.handleSensorData, try_catch.
  unfold mbind at 1. unfold M_bind at 1. rewrite fill_timestamp_eq.
  unfold mbind at 1. unfold M_bind at 1. unfold Service.addReading.
  assert (Hw1 : forall x : World,
             store (if js_not (sensorData !! "timestamp")
                    then set_clock_reads (S (clock_reads w)) w else w) = store w /\
             trace (if js_not (sensorData !! "timestamp")
                    then set_clock_reads (S (clock_reads w)) w else w) = trace w).
  { intros _. destruct (js_not _); split; reflexivity. }
  destruct (Hw1 w) as [Hs1 Ht1]. rewrite Hs1, Ht1.
  change (Store.addReading (stamped sensorData w) (store w))
    with (appended sensorData w).
  change (set_trace (trace w ++ Store.effects (appended sensorData w))
            (set_store (Store.after (appended sensorData w))
               (if js_not (sensorData !! "timestamp")
                then set_clock_reads (S (clock_reads w)) w else w)))
    with (appended_world sensorData w).
  unfold append_returns.
  pose proof (addReadingCap_outcome Store.MAX_READINGS (stamped sensorData w)
                (store w)) as Hout.
  change (Store.addReadingCap Store.MAX_READINGS (stamped sensorData w) (store w))
    with (appended sensorData w) in Hout.
  rewrite Hout.
  destruct (returned (Store.outcome (appended sensorData w))); [|reflexivity].
  unfold mbind at 1. unfold M_bind at 1. rewrite appendToCSVLog_eq.
  assert (Hbb : (if forallb convertible (csv_row (stamped sensorData w)) then
                   if csv_writable (appended_world sensorData w) then
                     set_trace (trace (appended_world sensorData w) ++
                                [FxCsv (csv_row (stamped sensorData w))])
                       (set_csv_log (csv_log (appended_world sensorData w) ++
                                     [csv_row (stamped sensorData w)])
                          (appended_world sensorData w))
                   else set_trace (trace (appended_world sensorData w) ++
                                   [FxLog (LogCsvWriteFailed "EACCES")])
                          (appended_world sensorData w)
                 else set_trace (trace (appended_world sensorData w) ++
                                 [FxLog (LogCsvWriteFailed TypeError_convert)])
                        (appended_world sensorData w))
                = before_broadcast sensorData w).
  { unfold before_broadcast, appended_world.
    destruct (js_not (sensorData !! "timestamp")); reflexivity. }
  rewrite Hbb.
  unfold mbind at 1. unfold M_bind at 1.
  rewrite (returned_unit _ (before_broadcast sensorData w)
             (returns_broadcastToClients (stamped sensorData w))).
  unfold Service.getDataStore, mbind, M_bind, gets, interpolate.
  fold (loggable (stamped sensorData w)).
  destruct (loggable (stamped sensorData w)); reflexivity.
Qed.

Lemma broadcast_keeps_store sensorData x :
  store (snd (Ws.broadcastToClients sensorData x)) = store x.
Proof.
  apply (preserves_broadcastToClients (fun y => store y = store x));
    solve [frame_step].
Qed.

Lemma broadcast_keeps_csv_log sensorData x :
  csv_log (snd (Ws.broadcastToClients sensorData x)) = csv_log x.
Proof.
  apply (preserves_broadcastToClients (fun y => csv_log y = csv_log x));
    solve [frame_step].
Qed.

Lemma before_broadcast_hub sensorData w :
  let w3 := before_broadcast sensorData w in
  sockets w3 = sockets w /\
  connectedClients w3 = connectedClients w /\
  wsServer w3 = wsServer w /\
  clock w3 (clock_reads w3) = broadcast_instant sensorData w /\
  store w3 = Store.after (appended sensorData w) /\
  csv_log w3 =
    if forallb convertible (csv_row (stamped sensorData w)) && csv_writable w
    then csv_log w ++ [csv_row (stamped sensorData w)] else csv_log w.
Proof.
  unfold before_broadcast, broadcast_instant, appended_world.
  destruct (js_not (sensorData !! "timestamp")),
    (forallb convertible (csv_row (stamped sensorData w))),
    (csv_writable w); simpl; repeat split; reflexivity.
Qed.

Lemma before_broadcast_after_append sensorData w :
  after_append (Store.after (appended sensorData w))
    (trace w ++ Store.effects (appended sensorData w))
    (before_broadcast sensorData w).
Proof.
  assert (H : after_append (Store.after (appended sensorData w))
                (trace w ++ Store.effects (appended sensorData w))
                (appended_world sensorData w)).
  { split; [reflexivity|]. exists []. rewrite app_nil_r.
    split; [|constructor].
    unfold appended_world. destruct (js_not _); reflexivity. }
  unfold before_broadcast.
  destruct (forallb convertible _); [destruct (csv_writable w)|].
  - apply (after_append_emit _ _ (set_csv_log _ _) [FxCsv _]);
      [repeat constructor | exact H].
  - apply after_append_emit; [repeat constructor | exact H].
  - apply after_append_emit; [repeat constructor | exact H].
Qed.

(** Whatever way [handleSensorData] ends, the store it leaves is the one
    its append produced, the effects of the append come first in the trace,
    and no later effect writes the store. *)
Lemma handleSensorData_after_append sensorData w :
  after_append (Store.after (appended sensorData w))
    (trace w ++ Store.effects (appended sensorData w))
    (snd (Service.handleSensorData sensorData w)).
Proof.
  rewrite handleSensorData_eq. cbv zeta.
  pose proof (before_broadcast_after_append sensorData w) as H3.
  pose proof (after_append_broadcast _ _ (stamped sensorData w) _ H3) as H4.
  destruct (append_returns sensorData w).
  - destruct (loggable (stamped sensorData w)); cbn [snd];
      (apply after_append_emit; [repeat constructor | exact H4]).
  - cbn [snd]. apply after_append_emit; [repeat constructor|].
    split; [reflexivity|]. exists []. rewrite app_nil_r.
    split; [|constructor].
    unfold appended_world. destruct (js_not _); reflexivity.
Qed.

(** [handleSensorData] returns the number of readings held when no console
    line raises, and throws the [TypeError] of the conversion otherwise. *)
Lemma handleSensorData_outcome sensorData w :
  fst (Service.handleSensorData sensorData w) =
  if ingests_cleanly sensorData w then
    Returned {| Service.success := true;
                Service.readingCount :=
                  length (Store.readings (Store.after (appended sensorData w))) |}
  else Thrown TypeError_convert.
Proof.
  rewrite handleSensorData_eq. cbv zeta. unfold ingests_cleanly.
  destruct (append_returns sensorData w); [|reflexivity].
  destruct (loggable (stamped sensorData w)); [|reflexivity].
  cbn [fst andb]. rewrite broadcast_keeps_store.
  destruct (before_broadcast_hub sensorData w) as (_ & _ & _ & _ & Hst & _).
  rewrite Hst. reflexivity.
Qed.

Lemma missing_fields_elem (body : JsObject) (f : string) :
  f ∈ Routes.missing_fields body <->
  f ∈ Routes.requiredFields /\ body !! f = None.
Proof.
  unfold Routes.missing_fields. rewrite !list_elem_of_In, List.filter_In.
  unfold js_in. rewrite negb_true_iff, bool_decide_eq_false.
  rewrite <- eq_None_not_Some. reflexivity.
Qed.

Lemma missing_fields_nil (body : JsObject) :
  Routes.missing_fields body = [] <->
  forall f, f ∈ Routes.requiredFields -> is_Some (body !! f).
Proof.
  split.
  - intros Hnil f Hf. destruct (body !! f) as [v|] eqn:E; [eauto|].
    assert (Hin : f ∈ Routes.missing_fields body)
      by (apply missing_fields_elem; split; assumption).
    rewrite Hnil in Hin. inversion Hin.
  - intros Hall. destruct (Routes.missing_fields body) as [|f l] eqn:E;
      [reflexivity|].
    assert (Hin : f ∈ Routes.missing_fields body) by (rewrite E; left).
    apply missing_fields_elem in Hin. destruct Hin as [Hf Hnone].
    destruct (Hall f Hf) as [v Hv]. congruence.
Qed.

Lemma post_data_rejected (body : JsObject) w :
  Routes.missing_fields body <> [] ->
  Routes.post_data body w =
  (Returned {| Routes.status := 400;
               Routes.json := Routes.JsonMissing (Routes.missing_fields body) |},
   w).
Proof.
  intros Hne. unfold Routes.post_data, try_catch.
  destruct (Routes.missing_fields body) as [|f l]; [congruence|].
  reflexivity.
Qed.

(** The route on a body with the five keys: the answer is made from the
    way [handleSensorData] ends. *)
Lemma post_data_handle (body : JsObject) w :
  Routes.missing_fields body = [] ->
  Routes.post_data body w =
  match Service.handleSensorData body w with
  | (Returned result, w1) =>
      (Returned {| Routes.status := 200;
                   Routes.json :=
                     Routes.JsonReceived (Service.readingCount result) |}, w1)
  | (Thrown e, w1) =>
      (Returned {| Routes.status := 500; Routes.json := Routes.JsonError e |},
       set_trace (trace w1 ++ [FxLog (LogRouteError e)]) w1)
  end.
Proof.
  intros Hm. unfold Routes.post_data, try_catch. rewrite Hm.
  cbn [length Nat.ltb Nat.leb]. unfold mbind, M_bind.
  destruct (Service.handleSensorData body w) as [[result|e] w1]; reflexivity.
Qed.

Lemma post_data_after_append (body : JsObject) w :
  Routes.missing_fields body = [] ->
  after_append (Store.after (appended body w))
    (trace w ++ Store.effects (appended body w))
    (snd (Routes.post_data body w)).
Proof.
  intros Hm. rewrite (post_data_handle body w Hm).
  pose proof (handleSensorData_after_append body w) as H.
  destruct (Service.handleSensorData body w) as [[result|e] w1]; cbn [snd] in *.
  - exact H.
  - apply after_append_emit; [repeat constructor | exact H].
Qed.

(** The answer to a body with the five keys: 200 with the number of
    readings held when no console line raises, 500 otherwise. *)
Lemma post_data_response (body : JsObject) w :
  Routes.missing_fields body = [] ->
  fst (Routes.post_data body w) =
  Returned
    (if ingests_cleanly body w then
       {| Routes.status := 200;
          Routes.json :=
            Routes.JsonReceived
              (length (Store.readings (Store.after (appended body w)))) |}
     else {| Routes.status := 500;
             Routes.json := Routes.JsonError TypeError_convert |}).
Proof.
  intros Hm. rewrite (post_data_handle body w Hm).
  pose proof (handleSensorData_outcome body w) as H.
  destruct (Service.handleSensorData body w) as [[result|e] w1]; cbn [fst] in *;
    destruct (ingests_cleanly body w); try discriminate;
    injection H as H; subst; reflexivity.
Qed.

Lemma MAX_READINGS_pos : 0 < Store.MAX_READINGS.
Proof. apply Nat.ltb_lt. vm_compute. reflexivity. Qed.

(** After a POST with the five keys the stamped reading is the latest one,
    however the request is answered. *)
Lemma post_data_latest (body : JsObject) w :
  Routes.missing_fields body = [] ->
  Store.getLatestReading (store (snd (Routes.post_data body w))) =
  Some (stamped body w).
Proof.
  intros Hm. destruct (post_data_after_append body w Hm) as [Hs _].
  rewrite Hs. apply addReadingCap_latest, MAX_READINGS_pos.
Qed.

(** The four fields that the spec requires besides [timestamp]. *)
Lemma missing_fields_timestamp_only (body : JsObject) :
  (forall f, f ∈ ["sensor_sn"; "ppb"; "temperature"; "humidity"] ->
             is_Some (body !! f)) ->
  Routes.missing_fields body =
  match body !! "timestamp" with Some _ => [] | None => ["timestamp"] end.
Proof.
  intros Hfields.
  assert (Hin : forall f, f ∈ ["sensor_sn"; "ppb"; "temperature"; "humidity"] ->
                          js_in f body = true).
  { intros f Hf. unfold js_in. apply bool_decide_eq_true_2, Hfields, Hf. }
  unfold Routes.missing_fields, Routes.requiredFields. cbn [List.filter].
  rewrite (Hin "sensor_sn"), (Hin "ppb"), (Hin "temperature"),
    (Hin "humidity") by in_list.
  cbn [negb].
  unfold js_in. destruct (body !! "timestamp") as [ts|] eqn:E.
  - rewrite bool_decide_eq_true_2 by eauto. reflexivity.
  - rewrite bool_decide_eq_false_2 by (intros [v Hv]; discriminate).
    reflexivity.
Qed.

(** ** Ingestion: claims *)

(** C1, as the spec states it, fails: a body with [sensor_sn], [ppb],
    [temperature] and [humidity] but no [timestamp] is answered 400 with
    [timestamp] reported missing, and the world is left as it was. *)
Lemma C1_absent_timestamp_rejected :
  let body := Sample.untimed 1 in
  body !! "timestamp" = None /\
  (forall f, f ∈ ["sensor_sn"; "ppb"; "temperature"; "humidity"] ->
             is_Some (body !! f)) /\
  Routes.post_data body Sample.started =
    (Returned {| Routes.status := 400;
                 Routes.json := Routes.JsonMissing ["timestamp"] |},
     Sample.started).
Proof.
  intros body. split; [reflexivity|]. split; [|reflexivity].
  intros f Hf.
  repeat (apply elem_of_cons in Hf; destruct Hf as [->|Hf];
          [vm_compute; eauto|]).
  inversion Hf.
Qed.

(** C1, amended.  For a body that has [sensor_sn], [ppb], [temperature]
    and [humidity]: without the [timestamp] key the request is answered 400
    with [timestamp] as the one missing field and nothing changes; with the
    key, the request is never answered 400, the reading is stored last and
    carries the submitted timestamp when that is truthy, and the instant
    read at ingestion when it is [null], [false], zero, [NaN] or the empty
    string; the answer is 200 with the number of readings held whenever the
    values that the console lines of the ingestion interpolate can be
    converted to strings. *)
Theorem C1_timestamp_key_required
    (body : JsObject) (w : World)
    (Hfields : forall f, f ∈ ["sensor_sn"; "ppb"; "temperature"; "humidity"] ->
                         is_Some (body !! f)) :
  (body !! "timestamp" = None ->
   Routes.post_data body w =
     (Returned {| Routes.status := 400;
                  Routes.json := Routes.JsonMissing ["timestamp"] |}, w)) /\
  (forall ts, body !! "timestamp" = Some ts ->
     let w' := snd (Routes.post_data body w) in
     (forall missing,
        fst (Routes.post_data body w) <>
        Returned {| Routes.status := 400;
                    Routes.json := Routes.JsonMissing missing |}) /\
     Store.getLatestReading (store w') =
       Some (if truthy ts then body
             else <["timestamp" := JsStr (clock w (clock_reads w))]> body) /\
     (ingests_cleanly body w = true ->
      fst (Routes.post_data body w) =
        Returned {| Routes.status := 200;
                    Routes.json :=
                      Routes.JsonReceived
                        (length (Store.readings (store w'))) |})).
Proof.
  pose proof (missing_fields_timestamp_only body Hfields) as Hmiss.
  split.
  - intros Hnone. rewrite Hnone in Hmiss.
    rewrite post_data_rejected by (rewrite Hmiss; discriminate).
    rewrite Hmiss. reflexivity.
  - intros ts Hts w'. rewrite Hts in Hmiss.
    pose proof (post_data_response body w Hmiss) as Hresp.
    destruct (post_data_after_append body w Hmiss) as [Hs _].
    fold w' in Hs.
    split; [|split].
    + intros missing. rewrite Hresp.
      destruct (ingests_cleanly body w); discriminate.
    + unfold w'. rewrite (post_data_latest body w Hmiss).
      unfold stamped. rewrite Hts. simpl. destruct (truthy ts); reflexivity.
    + intros Hclean. rewrite Hresp, Hclean, Hs. reflexivity.
Qed.

Lemma C1_timestamp_key_witness :
  let body := <["timestamp" := JsNull]> (Sample.untimed 1) in
  (forall f, f ∈ ["sensor_sn"; "ppb"; "temperature"; "humidity"] ->
             is_Some (body !! f)) /\
  Store.getLatestReading (store (snd (Routes.post_data body Sample.started))) =
    Some (<["timestamp" := JsStr (Sample.clock 1)]> body) /\
  fst (Routes.post_data body Sample.started) =
    Returned {| Routes.status := 200; Routes.json := Routes.JsonReceived 1 |}.
Proof.
  intros body.
  assert (Hfields : forall f,
             f ∈ ["sensor_sn"; "ppb"; "temperature"; "humidity"] ->
             is_Some (body !! f)).
  { intros f Hf.
    repeat (apply elem_of_cons in Hf; destruct Hf as [->|Hf];
            [vm_compute; eauto|]).
    inversion Hf. }
  split; [exact Hfields|].
  destruct (C1_timestamp_key_required body Sample.started Hfields) as [_ H].
  destruct (H JsNull eq_refl) as (_ & Hlast & Hresp).
  split; [exact Hlast|].
  etransitivity; [apply Hresp; vm_compute; reflexivity | reflexivity].
Defined.

(** C5.  A body without one of [sensor_sn], [ppb], [temperature],
    [humidity] is answered 400 with the list of all the required fields it
    lacks, and the world is left exactly as it was: no reading is stored,
    no counter moves, nothing is sent to any subscriber. *)
Theorem C5_missing_field_rejected
    (body : JsObject) (w : World) (f : string)
    (Hf : f ∈ ["sensor_sn"; "ppb"; "temperature"; "humidity"])
    (Habsent : body !! f = None) :
  Routes.post_data body w =
    (Returned {| Routes.status := 400;
                 Routes.json := Routes.JsonMissing (Routes.missing_fields body) |},
     w) /\
  f ∈ Routes.missing_fields body /\
  (forall g, g ∈ Routes.requiredFields ->
             (g ∈ Routes.missing_fields body <-> body !! g = None)) /\
  (let w' := snd (Routes.post_data body w) in
   Store.readings (store w') = Store.readings (store w) /\
   Store.totalReadingsReceived (Store.metadata (store w')) =
     Store.totalReadingsReceived (Store.metadata (store w)) /\
   (forall c, inbox_of w' c = inbox_of w c) /\
   trace w' = trace w).
Proof.
  assert (Hin : f ∈ Routes.missing_fields body).
  { apply missing_fields_elem. split; [|exact Habsent].
    unfold Routes.requiredFields. apply elem_of_cons. right. exact Hf. }
  assert (Hne : Routes.missing_fields body <> []).
  { intros Hnil. rewrite Hnil in Hin. inversion Hin. }
  rewrite post_data_rejected by exact Hne.
  split; [reflexivity|]. split; [exact Hin|]. split.
  - intros g Hg. rewrite missing_fields_elem. tauto.
  - simpl. repeat split; reflexivity.
Qed.

Lemma C5_missing_humidity_witness :
  let body := delete "humidity" (delete "ppb" (Sample.reading 1)) in
  "humidity" ∈ ["sensor_sn"; "ppb"; "temperature"; "humidity"] /\
  body !! "humidity" = None /\
  Routes.post_data body Sample.one_client =
    (Returned {| Routes.status := 400;
                 Routes.json := Routes.JsonMissing ["ppb"; "humidity"] |},
     Sample.one_client).
Proof.
  intros body.
  assert (Hf : "humidity" ∈ ["sensor_sn"; "ppb"; "temperature"; "humidity"])
    by in_list.
  assert (Ha : body !! "humidity" = None) by reflexivity.
  split; [exact Hf|]. split; [exact Ha|].
  exact (proj1 (C5_missing_field_rejected body Sample.one_client _ Hf Ha)).
Defined.

(** C7, at an input on which the code departs from it.  The body has the
    five required fields and its [ppb] is the JSON object
    [{"toString": 1}].  The reading is appended to the store, where it is
    the latest one, and is then delivered to the subscriber; the console
    line that follows the broadcast cannot convert [ppb] to a string, and
    the request is answered 500 with the message of the [TypeError], where
    the claim has the endpoint return the updated count, 1. *)
Theorem C7_unprintable_value_answered_500 :
  let body := <["ppb" := Sample.unprintable]> (Sample.reading 1) in
  let w := Sample.one_client in
  let w' := snd (Routes.post_data body w) in
  (forall f, f ∈ Routes.requiredFields -> is_Some (body !! f)) /\
  Store.getAllReadings (store w) = [] /\
  Store.getAllReadings (store w') = [body] /\
  Store.getLatestReading (store w') = Some body /\
  inbox_of w' 0 = inbox_of w 0 ++ [MsgSensorReading body (Sample.clock 2)] /\
  fst (Routes.post_data body w) =
    Returned {| Routes.status := 500;
                Routes.json := Routes.JsonError TypeError_convert |}.
Proof.
  intros body w w'. split.
  - intros f Hf.
    repeat (apply elem_of_cons in Hf; destruct Hf as [->|Hf];
            [vm_compute; eauto|]).
    inversion Hf.
  - vm_compute. repeat split; reflexivity.
Qed.

(** C9, as the spec states it, fails: a body whose [ppb] is a string that
    is no number, whose [temperature] is [null] and whose [humidity] is an
    empty array is accepted and stored as it is. *)
Lemma C9_malformed_values_accepted :
  let body := <["ppb" := JsStr "forty-five"]>
                (<["temperature" := JsNull]>
                   (<["humidity" := JsArr []]> (Sample.reading 1))) in
  fst (Routes.post_data body Sample.started) =
    Returned {| Routes.status := 200; Routes.json := Routes.JsonReceived 1 |} /\
  Store.getAllReadings (store (snd (Routes.post_data body Sample.started))) =
    [body].
Proof. vm_compute. split; reflexivity. Qed.

(** C9, amended.  The check before the store is on the presence of the
    five keys only: a body is rejected, with the list of the keys it lacks
    and nothing changed, exactly when one of them is absent; no value is
    inspected, so that a body with the five keys is stored whatever its
    values are, malformed or out of range, with every property other than
    [timestamp] as submitted, and is answered 200 with the number of
    readings held whenever the values that the console lines of the
    ingestion interpolate can be converted to strings. *)
Theorem C9_presence_is_all_that_is_checked (body : JsObject) (w : World) :
  ((exists missing,
      fst (Routes.post_data body w) =
      Returned {| Routes.status := 400;
                  Routes.json := Routes.JsonMissing missing |}) <->
   (exists f, f ∈ Routes.requiredFields /\ body !! f = None)) /\
  ((exists f, f ∈ Routes.requiredFields /\ body !! f = None) ->
   Routes.post_data body w =
     (Returned {| Routes.status := 400;
                  Routes.json :=
                    Routes.JsonMissing (Routes.missing_fields body) |}, w)) /\
  ((forall f, f ∈ Routes.requiredFields -> is_Some (body !! f)) ->
   let w' := snd (Routes.post_data body w) in
   (exists r,
      Store.getLatestReading (store w') = Some r /\
      forall f, f <> "timestamp" -> r !! f = body !! f) /\
   (ingests_cleanly body w = true ->
    fst (Routes.post_data body w) =
      Returned {| Routes.status := 200;
                  Routes.json :=
                    Routes.JsonReceived
                      (length (Store.readings (store w'))) |})).
Proof.
  assert (Hrej : (exists f, f ∈ Routes.requiredFields /\ body !! f = None) ->
                 Routes.missing_fields body <> []).
  { intros (f & Hf & Hnone) Hnil.
    assert (Hin : f ∈ Routes.missing_fields body)
      by (apply missing_fields_elem; split; assumption).
    rewrite Hnil in Hin. inversion Hin. }
  split; [split|split].
  - intros [missing Hm].
    destruct (Routes.missing_fields body) as [|f l] eqn:E.
    + rewrite (post_data_response body w E) in Hm.
      destruct (ingests_cleanly body w); discriminate.
    + exists f. apply missing_fields_elem. rewrite E. left.
  - intros Hex. exists (Routes.missing_fields body).
    rewrite post_data_rejected by (apply Hrej, Hex). reflexivity.
  - intros Hex. apply post_data_rejected, Hrej, Hex.
  - intros Hall w'. apply missing_fields_nil in Hall.
    split.
    + exists (stamped body w). unfold w'.
      split; [apply post_data_latest, Hall|].
      intros f Hf. unfold stamped.
      destruct (js_not (body !! "timestamp")); [|reflexivity].
      apply lookup_insert_ne. congruence.
    + intros Hclean. rewrite (post_data_response body w Hall), Hclean.
      destruct (post_data_after_append body w Hall) as [Hs _].
      unfold w'. rewrite Hs. reflexivity.
Qed.

Lemma C9_presence_witness :
  let body := <["ppb" := JsStr "forty-five"]> (Sample.reading 1) in
  (forall f, f ∈ Routes.requiredFields -> is_Some (body !! f)) /\
  (exists r,
     Store.getLatestReading
       (store (snd (Routes.post_data body Sample.started))) = Some r /\
     r !! "ppb" = Some (JsStr "forty-five")) /\
  fst (Routes.post_data body Sample.started) =
    Returned {| Routes.status := 200; Routes.json := Routes.JsonReceived 1 |}.
Proof.
  intros body.
  assert (Hvalid : forall f, f ∈ Routes.requiredFields -> is_Some (body !! f)).
  { intros f Hf.
    repeat (apply elem_of_cons in Hf; destruct Hf as [->|Hf];
            [vm_compute; eauto|]).
    inversion Hf. }
  split; [exact Hvalid|].
  destruct (C9_presence_is_all_that_is_checked body Sample.started)
    as (_ & _ & H).
  destruct (H Hvalid) as [(r & Hr & Hsame) Hresp].
  split.
  - exists r. split; [exact Hr|].
    rewrite Hsame by discriminate. reflexivity.
  - etransitivity; [apply Hresp; vm_compute; reflexivity | reflexivity].
Defined.

(** ** The hub *)

Lemma forEach_keeps_clients payload clients counts w :
  connectedClients (snd (Ws.forEach payload clients counts w)) =
  connectedClients w.
Proof.
  apply (preserves_forEach (fun y => connectedClients y = connectedClients w));
    solve [frame_step].
Qed.

(** A broadcast at a server that is set up, over a set of subscribers:
    it returns; each subscriber that is open and does not raise has the
    message appended to what it had received, every other socket has what
    it had; the set is as it was; the trace ends, when the set is not
    empty, with the line that records the number of successful sends and
    the size of the set, after one error line per send that raised. *)
Lemma broadcastToClients_spec sensorData w :
  wsServer w = true ->
  NoDup (connectedClients w) ->
  let payload := MsgSensorReading sensorData (clock w (clock_reads w)) in
  let clients := connectedClients w in
  exists w' fxs,
    Ws.broadcastToClients sensorData w = (Returned tt, w') /\
    (forall c, inbox_of w' c =
               if bool_decide (c ∈ clients) && deliverable w c
               then inbox_of w c ++ [payload] else inbox_of w c) /\
    connectedClients w' = clients /\
    trace w' =
      trace w ++ fxs ++
      (if 0 <? length clients
       then [FxLog (LogWsBroadcasted
                      (length (List.filter (deliverable w) clients))
                      (length clients))]
       else []) /\
    send_failures fxs = length (List.filter (failing w) clients).
Proof.
  intros Hserver Hnd payload clients.
  unfold Ws.broadcastToClients, mbind, M_bind, gets, new_Date_toISOString.
  rewrite Hserver. cbn [negb].
  set (w1 := set_clock_reads (S (clock_reads w)) w).
  change (connectedClients w1) with clients. fold payload.
  destruct (forEach_spec payload clients Hnd (0, 0) w1)
    as (w2 & fxs & Heq & Hin & _ & Htr & Hfail).
  pose proof (forEach_keeps_clients payload clients (0, 0) w1) as Hcl.
  rewrite Heq in Hcl |- *. simpl in Hcl. change (connectedClients w1) with clients in Hcl.
  change (deliverable w1) with (deliverable w) in *.
  change (failing w1) with (failing w) in *.
  change (inbox_of w1) with (inbox_of w) in *.
  change (trace w1) with (trace w) in *.
  rewrite Hcl. cbn [fst snd]. unfold Ws.when. subst clients.
  destruct (0 <? length (connectedClients w)).
  - eexists _, fxs. split; [reflexivity|].
    split; [exact Hin|]. split; [exact Hcl|].
    split; [|exact Hfail]. simpl. rewrite Htr, <- app_assoc. reflexivity.
  - exists w2, fxs. split; [reflexivity|].
    split; [exact Hin|]. split; [exact Hcl|].
    split; [|exact Hfail]. rewrite Htr, app_nil_r. reflexivity.
Qed.

(** ** Invariants of the process *)

Lemma set_delete_elem (c x : nat) (cs : list nat) :
  c ∈ Ws.set_delete x cs <-> c ∈ cs /\ c <> x.
Proof.
  unfold Ws.set_delete. rewrite !list_elem_of_In, List.filter_In.
  rewrite negb_true_iff, Nat.eqb_neq. reflexivity.
Qed.

Lemma set_add_elem (c x : nat) (cs : list nat) :
  c ∈ Ws.set_add x cs <-> c = x \/ c ∈ cs.
Proof.
  unfold Ws.set_add. case_bool_decide as Hx.
  - split; [tauto|]. intros [->|H]; assumption.
  - rewrite elem_of_app, list_elem_of_singleton. tauto.
Qed.

Lemma set_add_NoDup (x : nat) (cs : list nat) :
  NoDup cs -> NoDup (Ws.set_add x cs).
Proof.
  intros Hnd. unfold Ws.set_add. case_bool_decide as Hx; [exact Hnd|].
  apply NoDup_app. split; [exact Hnd|]. split.
  - intros c Hc Hc'. apply list_elem_of_singleton in Hc'. subst c. tauto.
  - apply NoDup_singleton.
Qed.

Lemma set_delete_NoDup (x : nat) (cs : list nat) :
  NoDup cs -> NoDup (Ws.set_delete x cs).
Proof.
  intros Hnd. unfold Ws.set_delete.
  apply NoDup_ListNoDup, List.NoDup_filter, NoDup_ListNoDup, Hnd.
Qed.

(** A property of the world that no step of the process breaks: the
    steps are listed as hypotheses, and [handle] and [run] are shown to keep
    the property by going through the handlers. *)
Section ProcessInvariant.

Variable P : World -> Prop.
Variable addable : nat -> Prop.

Hypothesis P_trace : forall w t, P w -> P (set_trace t w).
Hypothesis P_clock : forall w n, P w -> P (set_clock_reads n w).
Hypothesis P_store : forall w ds, P w -> P (set_store ds w).
Hypothesis P_csv : forall w rows, P w -> P (set_csv_log rows w).
Hypothesis P_delivered :
  forall w client m,
    P w -> deliverable w client = true -> P (delivered client m w).
Hypothesis P_add :
  forall w client, addable client -> P w ->
    P (set_connectedClients (Ws.set_add client (connectedClients w)) w).
Hypothesis P_delete :
  forall w client, P w ->
    P (set_connectedClients (Ws.set_delete client (connectedClients w)) w).
Hypothesis P_accepted :
  forall w clientIp broken, P w ->
    P (accepted clientIp broken w) /\ addable (next_socket w).
Hypothesis P_state :
  forall w client s st broken,
    P w -> sockets w !! client = Some s ->
    rank (readyState s) <= rank st ->
    P (set_sockets (<[client := mkSocket (remoteAddress s) st broken
                                  (inbox s)]> (sockets w)) w).

Lemma inv_console e : preserves P (console e).
Proof. intros w Hw. apply P_trace. exact Hw. Qed.

Lemma inv_new_Date : preserves P new_Date_toISOString.
Proof. intros w Hw. apply P_clock. exact Hw. Qed.

Lemma inv_ws_send client m : preserves P (ws_send client m).
Proof.
  apply preserves_ws_send; auto.
Qed.

Lemma inv_broadcastToClients sensorData :
  preserves P (Ws.broadcastToClients sensorData).
Proof. apply preserves_broadcastToClients; auto. Qed.

Lemma inv_on_message ws clientIp data :
  preserves P (Ws.on_message ws clientIp data).
Proof. apply preserves_on_message; auto. Qed.

Lemma inv_on_dataStore f : preserves P (on_dataStore f).
Proof.
  intros w Hw. unfold on_dataStore. destruct (f (store w)) as [ds fxs].
  simpl. apply P_trace, P_store. exact Hw.
Qed.

Lemma inv_addReading reading : preserves P (Service.addReading reading).
Proof. intros w Hw. apply P_trace, P_store. exact Hw. Qed.

Lemma inv_handleSensorData sensorData :
  preserves P (Service.handleSensorData sensorData).
Proof.
  unfold Service.handleSensorData. apply preserves_try_catch.
  - apply preserves_bind.
    { unfold Service.fill_timestamp. destruct (js_not _).
      - apply preserves_bind; [apply inv_new_Date|].
        intros now. apply preserves_ret.
      - apply preserves_ret. }
    intros r. apply preserves_bind; [apply inv_addReading|]. intros _.
    apply preserves_bind.
    { apply preserves_appendToCSVLog; auto. }
    intros _. apply preserves_bind; [apply inv_broadcastToClients|].
    intros _. apply preserves_bind; [apply preserves_gets|]. intros ds.
    apply preserves_bind; [apply preserves_interpolate|]. intros _.
    apply preserves_bind; [apply inv_console|]. intros _.
    apply preserves_ret.
  - intros e. apply preserves_bind; [apply inv_console|]. intros _.
    apply preserves_throw.
Qed.

Lemma inv_post_data body : preserves P (Routes.post_data body).
Proof.
  unfold Routes.post_data. apply preserves_try_catch.
  - cbn zeta. destruct (0 <? length (Routes.missing_fields body)).
    + apply preserves_ret.
    + apply preserves_bind; [apply inv_handleSensorData|].
      intros res. apply preserves_ret.
  - intros e. apply preserves_bind; [apply inv_console|]. intros _.
    apply preserves_ret.
Qed.

Lemma inv_get_latest : preserves P Routes.get_latest.
Proof.
  unfold Routes.get_latest, Service.getLatestReading, Service.getDataStore.
  apply preserves_try_catch.
  - apply preserves_bind.
    + apply preserves_bind; [apply preserves_gets|]. intros ds.
      destruct (_ =? _); apply preserves_ret.
    + intros [r|]; apply preserves_ret.
  - intros e. apply preserves_bind; [apply inv_console|]. intros _.
    apply preserves_ret.
Qed.

Lemma inv_get_all : preserves P Routes.get_all.
Proof.
  unfold Routes.get_all, Service.getAllReadings, Service.getDataStore.
  apply preserves_try_catch.
  - apply preserves_bind.
    + apply preserves_bind; [apply preserves_gets|]. intros ds.
      apply preserves_ret.
    + intros rs. apply preserves_ret.
  - intros e. apply preserves_bind; [apply inv_console|]. intros _.
    apply preserves_ret.
Qed.

Lemma inv_on_connection ws clientIp :
  addable ws -> preserves P (Ws.on_connection ws clientIp).
Proof.
  intros Hadd. unfold Ws.on_connection.
  apply preserves_bind; [apply inv_console|]. intros _.
  apply preserves_bind.
  { intros w Hw. apply P_add; assumption. }
  intros _. apply preserves_bind; [apply inv_new_Date|]. intros now.
  apply preserves_bind; [apply preserves_gets|]. intros size.
  apply inv_ws_send.
Qed.

Lemma inv_on_close ws clientIp : preserves P (Ws.on_close ws clientIp).
Proof.
  unfold Ws.on_close. apply preserves_bind.
  { intros w Hw. apply P_delete. exact Hw. }
  intros _. apply preserves_bind; [apply preserves_gets|]. intros size.
  apply inv_console.
Qed.

Lemma inv_socket_state ws st broken :
  preserves P (socket_state ws st broken).
Proof.
  intros w Hw. unfold socket_state, modify. simpl.
  destruct (sockets w !! ws) as [s|] eqn:Hs; [|exact Hw].
  destruct (Nat.leb_spec (rank (readyState s)) (rank st)); [|exact Hw].
  apply P_state; assumption.
Qed.

Lemma inv_with_socket ws h :
  (forall ip, preserves P (h ip)) -> preserves P (with_socket ws h).
Proof.
  intros Hh. unfold with_socket.
  apply preserves_bind; [apply preserves_gets|].
  intros [s|]; [apply Hh | apply preserves_ret].
Qed.

Lemma inv_handle ev : preserves P (handle ev).
Proof.
  destruct ev; simpl.
  - apply preserves_bind; [apply preserves_gets|].
    intros [|]; [|apply preserves_ret].
    intros w Hw. unfold accept, mbind, M_bind, gets, modify. simpl.
    destruct (P_accepted w clientIp broken Hw) as [Hacc Hadd].
    apply (inv_on_connection _ clientIp Hadd _ Hacc).
  - apply inv_with_socket. intros ip. apply inv_on_message.
  - apply inv_socket_state.
  - apply preserves_bind; [apply preserves_gets|]. intros b.
    apply preserves_bind; [apply inv_socket_state|]. intros _.
    apply inv_with_socket. intros ip. apply inv_on_close.
  - apply inv_with_socket. intros ip. intros w Hw. apply P_trace. exact Hw.
  - apply preserves_bind; [apply inv_post_data|]. intros _.
    apply preserves_ret.
  - apply preserves_bind; [apply inv_get_latest|]. intros _.
    apply preserves_ret.
  - apply preserves_bind; [apply inv_get_all|]. intros _.
    apply preserves_ret.
  - apply inv_on_dataStore.
Qed.

Lemma inv_run evs : preserves P (run evs).
Proof.
  induction evs as [|ev rest IH]; simpl.
  - apply preserves_ret.
  - apply preserves_bind; [apply inv_handle|]. intros _. exact IH.
Qed.

End ProcessInvariant.

Lemma hub_ok_run evs w : hub_ok w -> hub_ok (snd (run evs w)).
Proof.
  apply (inv_run hub_ok (fun _ => True)); unfold hub_ok.
  - frame_step.
  - frame_step.
  - frame_step.
  - frame_step.
  - frame_step.
  - intros w0 c _ [Hs Hnd]. simpl. split; [exact Hs|].
    apply set_add_NoDup, Hnd.
  - intros w0 c [Hs Hnd]. simpl. split; [exact Hs|].
    apply set_delete_NoDup, Hnd.
  - intros w0 ip b H. split; [exact H | exact I].
  - frame_step.
Qed.

Lemma hub_ok_boot clock csv_writable : hub_ok (boot clock csv_writable).
Proof. split; [reflexivity | constructor]. Qed.

Lemma closed_out_run ws inb evs w :
  closed_out ws inb w -> closed_out ws inb (snd (run evs w)).
Proof.
  apply (inv_run (closed_out ws inb) (fun c => c <> ws)); unfold closed_out.
  - frame_step.
  - frame_step.
  - frame_step.
  - frame_step.
  - intros w0 c m (Hout & Hlt & s & Hs & Hst & Hin) Hd.
    unfold delivered, deliverable in *.
    destruct (sockets w0 !! c) as [sc|] eqn:Hsc; [|discriminate].
    simpl. split; [exact Hout|]. split; [exact Hlt|].
    destruct (decide (c = ws)) as [->|Hne].
    + rewrite Hs in Hsc. injection Hsc as <-. rewrite Hst in Hd. discriminate.
    + exists s. rewrite lookup_insert_ne by exact Hne. auto.
  - intros w0 c Hc (Hout & Hlt & Hsock). simpl.
    split; [|split; assumption].
    rewrite set_add_elem. intros [->|Hin]; [apply Hc; reflexivity | tauto].
  - intros w0 c (Hout & Hlt & Hsock). simpl.
    split; [|split; assumption].
    rewrite set_delete_elem. tauto.
  - intros w0 ip b (Hout & Hlt & s & Hs & Hst & Hin). unfold accepted. simpl.
    split; [|lia]. split; [exact Hout|]. split; [lia|].
    exists s. rewrite lookup_insert_ne by lia. auto.
  - intros w0 c sc st b (Hout & Hlt & s & Hs & Hst & Hin) Hsc Hrank. simpl.
    split; [exact Hout|]. split; [exact Hlt|].
    destruct (decide (c = ws)) as [->|Hne].
    + rewrite Hs in Hsc. injection Hsc as <-.
      rewrite lookup_insert_eq. eexists. split; [reflexivity|]. simpl.
      split; [|exact Hin].
      rewrite Hst in Hrank. destruct st; simpl in Hrank; try lia. reflexivity.
    + exists s. rewrite lookup_insert_ne by exact Hne. auto.
Qed.

Lemma set_delete_not_in (ws : nat) (cs : list nat) : ws ∉ Ws.set_delete ws cs.
Proof. rewrite set_delete_elem. tauto. Qed.

(** What the ['close'] event does to a socket that exists. *)
Lemma handle_close_eq w ws sock :
  sockets w !! ws = Some sock ->
  handle (EvClose ws) w =
  (Returned tt,
   set_trace (trace w ++
              [FxLog (LogWsDisconnected (remoteAddress sock)
                        (length (Ws.set_delete ws (connectedClients w))))])
     (set_connectedClients (Ws.set_delete ws (connectedClients w))
        (set_sockets (<[ws := mkSocket (remoteAddress sock) CLOSED
                                 (send_throws sock) (inbox sock)]> (sockets w))
           w))).
Proof.
  intros Hs.
  unfold handle, socket_state, with_socket, Ws.on_close, mbind, M_bind, gets,
    modify, console, emit, modify.
  cbn beta iota. rewrite Hs.
  assert (Hr : (rank (readyState sock) <=? rank CLOSED) = true)
    by (destruct (readyState sock); reflexivity).
  rewrite Hr. cbn [sockets set_sockets from_option].
  rewrite (lookup_insert_eq (sockets w)). reflexivity.
Qed.

Lemma handle_close_closed_out w ws sock :
  sockets w !! ws = Some sock -> ws < next_socket w ->
  closed_out ws (inbox sock) (snd (handle (EvClose ws) w)).
Proof.
  intros Hs Hlt. rewrite (handle_close_eq w ws sock Hs). simpl.
  split; [apply set_delete_not_in|]. split; [exact Hlt|].
  eexists. split; [apply lookup_insert_eq|].
  split; reflexivity.
Qed.

Lemma broadcast_keeps_clients sensorData w :
  connectedClients (snd (Ws.broadcastToClients sensorData w)) =
  connectedClients w.
Proof.
  apply (preserves_broadcastToClients
           (fun y => connectedClients y = connectedClients w));
    solve [frame_step].
Qed.

Lemma broadcast_keeps_condition sensorData w c :
  deliverable (snd (Ws.broadcastToClients sensorData w)) c = deliverable w c /\
  failing (snd (Ws.broadcastToClients sensorData w)) c = failing w c.
Proof.
  apply (preserves_broadcastToClients
           (fun y => deliverable y c = deliverable w c /\
                     failing y c = failing w c)); try solve [frame_step].
  intros w0 client m [Hd Hf] _.
  destruct (deliverable_delivered client m w0 c) as [-> ->]. auto.
Qed.

Lemma delivered_readyState client m w c :
  readyState <$> sockets (delivered client m w) !! c =
  readyState <$> sockets w !! c.
Proof.
  unfold delivered. destruct (sockets w !! client) as [s|] eqn:Hs;
    [|reflexivity].
  simpl. destruct (decide (c = client)) as [->|Hc].
  - rewrite lookup_insert_eq, Hs. reflexivity.
  - rewrite lookup_insert_ne by congruence. reflexivity.
Qed.

Lemma broadcast_keeps_readyState sensorData w c :
  readyState <$> sockets (snd (Ws.broadcastToClients sensorData w)) !! c =
  readyState <$> sockets w !! c.
Proof.
  apply (preserves_broadcastToClients
           (fun y => readyState <$> sockets y !! c =
                     readyState <$> sockets w !! c)); try solve [frame_step].
  intros w0 client m H _. rewrite delivered_readyState. exact H.
Qed.

Lemma message_keeps_readyState ws data w c :
  readyState <$> sockets (snd (handle (EvMessage ws data) w)) !! c =
  readyState <$> sockets w !! c.
Proof.
  apply (inv_with_socket
           (fun y => readyState <$> sockets y !! c =
                     readyState <$> sockets w !! c)); [|reflexivity].
  intros ip.
  apply (preserves_on_message
           (fun y => readyState <$> sockets y !! c =
                     readyState <$> sockets w !! c)); try solve [frame_step].
  intros w0 client m H _. rewrite delivered_readyState. exact H.
Qed.

Lemma message_keeps_clients ws data w :
  connectedClients (snd (handle (EvMessage ws data) w)) = connectedClients w.
Proof.
  apply (inv_with_socket (fun y => connectedClients y = connectedClients w));
    [|reflexivity].
  intros ip.
  apply (preserves_on_message (fun y => connectedClients y = connectedClients w));
    solve [frame_step].
Qed.

Lemma returns_on_message ws clientIp data :
  returns (Ws.on_message ws clientIp data).
Proof.
  unfold Ws.on_message. apply returns_try_catch. intros e. apply returns_emit.
Qed.

Lemma message_returns ws data w :
  fst (handle (EvMessage ws data) w) = Returned tt.
Proof.
  unfold handle, with_socket, mbind, M_bind, gets.
  destruct (sockets w !! ws) as [sock|]; [|reflexivity].
  destruct (returns_on_message ws (remoteAddress sock) data w) as [[] Hr].
  exact Hr.
Qed.

(** No event but its own ['close'] takes a socket out of the set. *)
Lemma handle_keeps_member ev c :
  ev <> EvClose c ->
  preserves (fun y => c ∈ connectedClients y) (handle ev).
Proof.
  intros Hev. destruct ev; simpl.
  - apply preserves_bind; [apply preserves_gets|].
    intros [|]; [|apply preserves_ret].
    intros x Hx. unfold accept, mbind, M_bind, gets, modify. simpl.
    apply (inv_on_connection (fun y => c ∈ connectedClients y)
             (fun _ => True)); try solve [frame_step].
    intros w0 client _ H. simpl. apply set_add_elem. right. exact H.
  - apply inv_with_socket. intros ip.
    apply (preserves_on_message (fun y => c ∈ connectedClients y));
      solve [frame_step].
  - intros x Hx. unfold socket_state, modify. simpl.
    destruct (sockets x !! ws); [|exact Hx].
    destruct (_ <=? _); exact Hx.
  - assert (Hne : c <> ws) by congruence.
    apply preserves_bind; [apply preserves_gets|]. intros b.
    apply preserves_bind.
    { intros x Hx. unfold socket_state, modify. simpl.
      destruct (sockets x !! ws); [|exact Hx].
      destruct (_ <=? _); exact Hx. }
    intros _. apply inv_with_socket. intros ip x Hx.
    unfold Ws.on_close, mbind, M_bind, modify, gets, console, emit, modify.
    simpl. apply set_delete_elem. split; assumption.
  - apply inv_with_socket. intros ip x Hx. exact Hx.
  - apply preserves_bind; [|intros _; apply preserves_ret].
    apply (inv_post_data (fun y => c ∈ connectedClients y));
      solve [frame_step].
  - apply preserves_bind; [|intros _; apply preserves_ret].
    apply (inv_get_latest (fun y => c ∈ connectedClients y));
      solve [frame_step].
  - apply preserves_bind; [|intros _; apply preserves_ret].
    apply (inv_get_all (fun y => c ∈ connectedClients y)); solve [frame_step].
  - apply (inv_on_dataStore (fun y => c ∈ connectedClients y));
      solve [frame_step].
Qed.

Lemma removed_by_close ev w c :
  c ∈ connectedClients w ->
  c ∉ connectedClients (snd (handle ev w)) ->
  ev = EvClose c.
Proof.
  intros Hin Hout.
  assert (Hkeep : ev <> EvClose c -> False).
  { intros Hne. apply Hout. apply (handle_keeps_member ev c Hne w Hin). }
  destruct ev; try (exfalso; apply Hkeep; discriminate).
  destruct (decide (ws = c)) as [->|Hne]; [reflexivity|].
  exfalso. apply Hkeep. congruence.
Qed.

(** The ['connection'] event at a server that is set up puts the new
    socket in the set, open, whether or not the welcome can be sent. *)
Lemma handle_connection_joined w clientIp broken :
  wsServer w = true ->
  let joined := snd (handle (EvConnection clientIp broken) w) in
  next_socket w ∈ connectedClients joined /\
  readyState <$> sockets joined !! next_socket w = Some OPEN.
Proof.
  intros Hserver joined. unfold joined, handle, mbind, M_bind, gets.
  rewrite Hserver. unfold accept, mbind, M_bind, gets, modify.
  cbn beta iota.
  set (w1 := set_next_socket _ _).
  unfold Ws.on_connection, mret, M_ret.
  unfold mbind at 1. unfold M_bind at 1. cbn beta iota.
  unfold console at 1. unfold emit, modify at 1. cbn beta iota.
  set (w2 := set_trace _ w1).
  assert (Hw2 : readyState <$> sockets w2 !! next_socket w = Some OPEN).
  { unfold w2, w1. cbn [sockets set_trace set_next_socket set_sockets].
    rewrite (lookup_insert_eq (sockets w)). reflexivity. }
  unfold mbind at 1. unfold M_bind at 1. unfold modify at 1. cbn beta iota.
  set (w3 := set_connectedClients _ w2).
  assert (Hw3 : next_socket w ∈ connectedClients w3 /\
                readyState <$> sockets w3 !! next_socket w = Some OPEN).
  { split; [|exact Hw2]. unfold w3. simpl. apply set_add_elem. left.
    reflexivity. }
  assert (Hrest : preserves
            (fun y => next_socket w ∈ connectedClients y /\
                      readyState <$> sockets y !! next_socket w = Some OPEN)
            (now ← new_Date_toISOString ;
             size ← gets (fun w0 => length (connectedClients w0)) ;
             ws_send (next_socket w)
               (MsgConnection "Connected to DGS2 sensor server" now size))).
  { apply preserves_bind.
    - intros y Hy. exact Hy.
    - intros now. apply preserves_bind; [apply preserves_gets|].
      intros size. apply preserves_ws_send.
      + intros y c m [Hy1 Hy2] Hd. split.
        * unfold delivered. destruct (sockets y !! c); [exact Hy1 | exact Hy1].
        * rewrite delivered_readyState. exact Hy2.
      + intros y c Hy. exact Hy. }
  exact (Hrest w3 Hw3).
Qed.

(** ** The hub: claims *)

(** C6.  A broadcast never throws.  At a server that is set up, over a set
    of subscribers: every subscriber of the set that is open and does not
    raise on [send] receives the message, whatever the state of the others;
    every other socket receives nothing; the set is left as it was; and
    the console gets one error line per send that raised, then, when the
    set is not empty, the line with the number of successful sends and the
    size of the set. *)
Theorem C6_broadcast_isolates_failures
    (sensorData : Reading) (w : World)
    (Hserver : wsServer w = true)
    (Hset : NoDup (connectedClients w)) :
  let payload := MsgSensorReading sensorData (clock w (clock_reads w)) in
  let clients := connectedClients w in
  let w' := snd (Ws.broadcastToClients sensorData w) in
  returns (Ws.broadcastToClients sensorData) /\
  fst (Ws.broadcastToClients sensorData w) = Returned tt /\
  (forall c, c ∈ clients -> deliverable w c = true ->
             inbox_of w' c = inbox_of w c ++ [payload]) /\
  (forall c, (c ∉ clients) \/ deliverable w c = false ->
             inbox_of w' c = inbox_of w c) /\
  connectedClients w' = clients /\
  exists fxs,
    trace w' =
      trace w ++ fxs ++
      (if 0 <? length clients
       then [FxLog (LogWsBroadcasted
                      (length (List.filter (deliverable w) clients))
                      (length clients))]
       else []) /\
    send_failures fxs = length (List.filter (failing w) clients).
Proof.
  intros payload clients w'.
  destruct (broadcastToClients_spec sensorData w Hserver Hset)
    as (w1 & fxs & Heq & Hin & Hcl & Htr & Hfail).
  unfold w'. rewrite Heq. simpl.
  split; [apply returns_broadcastToClients|].
  split; [reflexivity|].
  split; [|split; [|split; [exact Hcl|]]].
  - intros c Hc Hd. rewrite Hin, Hd.
    rewrite bool_decide_eq_true_2 by exact Hc. reflexivity.
  - intros c [Hc|Hd]; rewrite Hin.
    + rewrite bool_decide_eq_false_2 by exact Hc. reflexivity.
    + rewrite Hd, andb_false_r. reflexivity.
  - exists fxs. split; [exact Htr | exact Hfail].
Qed.

(** C6, the scenario: three subscribers, the second one closed. *)
Lemma C6_broadcast_witness :
  let w := Sample.three_clients in
  let w' := snd (Ws.broadcastToClients (Sample.reading 1) w) in
  let payload := MsgSensorReading (Sample.reading 1) (clock w (clock_reads w)) in
  wsServer w = true /\
  NoDup (connectedClients w) /\
  connectedClients w = [0; 1; 2] /\
  deliverable w 1 = false /\
  inbox_of w' 0 = inbox_of w 0 ++ [payload] /\
  inbox_of w' 2 = inbox_of w 2 ++ [payload] /\
  inbox_of w' 1 = inbox_of w 1 /\
  fst (Ws.broadcastToClients (Sample.reading 1) w) = Returned tt /\
  last (trace w') = Some (FxLog (LogWsBroadcasted 2 3)).
Proof.
  intros w w' payload.
  assert (Hserver : wsServer w = true) by reflexivity.
  assert (Hset : NoDup (connectedClients w)).
  { apply (bool_decide_unpack (NoDup (connectedClients w))).
    vm_compute. exact I. }
  destruct (C6_broadcast_isolates_failures (Sample.reading 1) w Hserver Hset)
    as (_ & Hret & Hgot & Hnot & _ & _).
  split; [exact Hserver|]. split; [exact Hset|].
  split; [reflexivity|]. split; [reflexivity|].
  split; [apply Hgot; [in_list | reflexivity]|].
  split; [apply Hgot; [in_list | reflexivity]|].
  split; [apply Hnot; right; reflexivity|].
  split; [exact Hret | reflexivity].
Defined.

(** C8, as the spec states it, fails.  A subscriber that sends a frame
    that is no JSON stays in the set with its socket open, and receives the
    next reading; a subscriber whose socket raises on [send] stays in the
    set, with its socket open, after the broadcast in which the send
    failed. *)
Lemma C8_protocol_error_keeps_subscriber :
  let w0 := Sample.one_client in
  let w1 := snd (handle (EvMessage 0 None) w0) in
  let w2 := snd (handle (EvPostData (Sample.reading 1)) w1) in
  let v1 := snd (handle (EvSocketState 0 OPEN true) w0) in
  let v2 := snd (handle (EvPostData (Sample.reading 1)) v1) in
  (connectedClients w0 = [0] /\
   connectedClients w1 = [0] /\
   readyState <$> sockets w1 !! 0 = Some OPEN /\
   inbox_of w2 0 =
     inbox_of w0 0 ++ [MsgSensorReading (Sample.reading 1) (Sample.clock 2)]) /\
  (failing v1 0 = true /\
   FxSendThrew 0 ∈ trace v2 /\
   connectedClients v2 = [0] /\
   readyState <$> sockets v2 !! 0 = Some OPEN).
Proof.
  intros w0 w1 w2 v1 v2.
  split; [repeat split; reflexivity|].
  split; [reflexivity|]. split; [in_list|]. split; reflexivity.
Qed.

(** C8, amended.  A socket enters the set open, when its connection is
    accepted, whether or not the welcome can be sent to it.  It leaves the
    set on its ['close'] event and on nothing else: no other event takes a
    socket out of the set; a frame, whatever it carries, is handled without
    an exception and leaves the set and the state of every socket as they
    were, a frame that is no JSON or is [null] and an ['error'] event only
    write a console line, and a broadcast, whether its sends fail or not,
    leaves the set and the state of every socket as they were.  Once the
    ['close'] event of a socket has been handled, the socket is not in the
    set, and whatever happens afterwards it is never in the set again and
    receives nothing more. *)
Theorem C8_removed_on_close_only
    (w : World) (ws : nat) (sock : Socket) (evs : list Event)
    (Hsock : sockets w !! ws = Some sock)
    (Hold : ws < next_socket w) :
  let closed := snd (handle (EvClose ws) w) in
  let later := snd (run evs closed) in
  ((ws ∉ connectedClients closed) /\
   (ws ∉ connectedClients later) /\
   inbox_of later ws = inbox_of w ws) /\
  (forall ev c,
     c ∈ connectedClients w ->
     (c ∉ connectedClients (snd (handle ev w))) ->
     ev = EvClose c) /\
  (forall data,
     let w' := snd (handle (EvMessage ws data) w) in
     fst (handle (EvMessage ws data) w) = Returned tt /\
     connectedClients w' = connectedClients w /\
     forall c, readyState <$> sockets w' !! c = readyState <$> sockets w !! c) /\
  handle (EvMessage ws None) w =
    (Returned tt,
     set_trace (trace w ++
                [FxLog (LogWsMessageError "Unexpected token in JSON")]) w) /\
  handle (EvMessage ws (Some JsNull)) w =
    (Returned tt,
     set_trace (trace w ++
                [FxLog (LogWsMessageError
                          "Cannot read properties of null (reading 'type')")])
       w) /\
  (forall message,
     handle (EvError ws message) w =
       (Returned tt,
        set_trace (trace w ++
                   [FxLog (LogWsError (remoteAddress sock) message)]) w)) /\
  (forall sensorData,
     let w' := snd (Ws.broadcastToClients sensorData w) in
     connectedClients w' = connectedClients w /\
     forall c,
       deliverable w' c = deliverable w c /\
       failing w' c = failing w c /\
       readyState <$> sockets w' !! c = readyState <$> sockets w !! c) /\
  (forall clientIp broken,
     wsServer w = true ->
     let joined := snd (handle (EvConnection clientIp broken) w) in
     next_socket w ∈ connectedClients joined /\
     readyState <$> sockets joined !! next_socket w = Some OPEN).
Proof.
  intros closed later.
  pose proof (handle_close_closed_out w ws sock Hsock Hold) as Hc.
  fold closed in Hc.
  pose proof (closed_out_run ws (inbox sock) evs closed Hc) as Hl.
  fold later in Hl.
  split; [|split; [|split; [|split; [|split; [|split; [|split]]]]]].
  - destruct Hc as (Hout & _). destruct Hl as (Hout' & _ & s & Hs & _ & Hin).
    split; [exact Hout|]. split; [exact Hout'|].
    unfold inbox_of. rewrite Hs, Hsock. exact Hin.
  - intros ev c. apply removed_by_close.
  - intros data w'. split; [apply message_returns|].
    split; [apply message_keeps_clients|].
    intros c. apply message_keeps_readyState.
  - unfold handle, with_socket, mbind, M_bind, gets. rewrite Hsock.
    reflexivity.
  - unfold handle, with_socket, mbind, M_bind, gets. rewrite Hsock.
    reflexivity.
  - intros message. unfold handle, with_socket, mbind, M_bind, gets.
    rewrite Hsock. reflexivity.
  - intros sensorData w'. split; [apply broadcast_keeps_clients|].
    intros c. destruct (broadcast_keeps_condition sensorData w c) as [Hd Hf].
    split; [exact Hd|]. split; [exact Hf|].
    apply broadcast_keeps_readyState.
  - intros clientIp broken Hserver. apply handle_connection_joined, Hserver.
Qed.

Lemma C8_removed_on_close_witness :
  let w := Sample.three_clients in
  let evs := [EvPostData (Sample.reading 1);
              EvMessage 1 (Some (JsObj [("type", JsStr "ping")]));
              EvPostData (Sample.reading 2)] in
  let later := snd (run evs (snd (handle (EvClose 1) w))) in
  is_Some (sockets w !! 1) /\
  1 < next_socket w /\
  (1 ∉ connectedClients later) /\
  inbox_of later 1 = inbox_of w 1 /\
  connectedClients later = [0; 2] /\
  connectedClients (snd (handle (EvMessage 1 (Some JsNull)) w)) = [0; 1; 2].
Proof.
  intros w evs later.
  assert (Hsock : sockets w !! 1 =
                  Some (mkSocket "10.0.0.2" CLOSED false
                          [MsgConnection "Connected to DGS2 sensor server"
                             (Sample.clock 2) 2])) by reflexivity.
  assert (Hold : 1 < next_socket w) by (vm_compute; lia).
  destruct (C8_removed_on_close_only w 1 _ evs Hsock Hold)
    as ((_ & Hout & Hin) & _ & Hmsg & _).
  split; [eexists; exact Hsock|]. split; [exact Hold|].
  split; [exact Hout|]. split; [exact Hin|]. split; [reflexivity|].
  destruct (Hmsg (Some JsNull)) as (_ & Hset & _).
  etransitivity; [exact Hset | reflexivity].
Defined.

(** Every world the process reaches from its start-up has the server set
    up and a set of subscribers without duplicates: the hypotheses of C6
    hold of it. *)
Lemma reachable_hub_ok clock csv_writable evs :
  hub_ok (snd (run evs (boot clock csv_writable))).
Proof. apply hub_ok_run, hub_ok_boot. Qed.

(** * Further properties of the code *)

(** ** What an event can do to the store *)

Lemma hub_event_preserves_store ds ev :
  hub_event ev = true -> preserves (fun y => store y = ds) (handle ev).
Proof.
  intros Hev. destruct ev; try discriminate; simpl.
  - apply preserves_bind; [apply preserves_gets|].
    intros [|]; [|apply preserves_ret].
    intros x Hx. unfold accept, mbind, M_bind, gets, modify. simpl.
    apply (inv_on_connection (fun y => store y = ds) (fun _ => True));
      solve [frame_step].
  - apply inv_with_socket. intros ip.
    apply (inv_on_message (fun y => store y = ds)); solve [frame_step].
  - intros x Hx. unfold socket_state, modify. simpl.
    destruct (sockets x !! ws); [|exact Hx].
    destruct (_ <=? _); exact Hx.
  - apply preserves_bind; [apply preserves_gets|]. intros b.
    apply preserves_bind.
    { intros x Hx. unfold socket_state, modify. simpl.
      destruct (sockets x !! ws); [|exact Hx].
      destruct (_ <=? _); exact Hx. }
    intros _. apply inv_with_socket. intros ip.
    apply (inv_on_close (fun y => store y = ds)); solve [frame_step].
  - apply inv_with_socket. intros ip x Hx. exact Hx.
  - apply preserves_bind; [|intros _; apply preserves_ret].
    apply (inv_get_latest (fun y => store y = ds)); solve [frame_step].
  - apply preserves_bind; [|intros _; apply preserves_ret].
    apply (inv_get_all (fun y => store y = ds)); solve [frame_step].
Qed.

Lemma hub_event_keeps_store ev w :
  hub_event ev = true -> store (snd (handle ev w)) = store w.
Proof.
  intros Hev. apply (hub_event_preserves_store (store w) ev Hev). reflexivity.
Qed.

(** A property of the store that appending an accepted reading and
    clearing keep is kept by every event. *)
Section StoreInvariant.

Variable Q : Store.DataStore -> Prop.

Hypothesis Q_add :
  forall ds (body : JsObject) w,
    Routes.missing_fields body = [] -> Q ds ->
    Q (Store.after (Store.addReading (stamped body w) ds)).
Hypothesis Q_clear : forall ds, Q ds -> Q (fst (Store.clearReadings ds)).

Lemma store_inv_handle ev : preserves (fun y => Q (store y)) (handle ev).
Proof.
  intros w Hw. destruct (hub_event ev) eqn:Hev.
  - rewrite hub_event_keeps_store by exact Hev. exact Hw.
  - destruct ev; try discriminate; simpl.
    + unfold mbind, M_bind.
      destruct (Routes.missing_fields body) as [|f l] eqn:Hm.
      * pose proof (post_data_response body w Hm) as Hr.
        destruct (post_data_after_append body w Hm) as [Hs _].
        destruct (Routes.post_data body w) as [[res|e] w'];
          simpl in *; [|discriminate].
        rewrite Hs. unfold appended. apply Q_add; assumption.
      * rewrite post_data_rejected by (rewrite Hm; discriminate).
        simpl. exact Hw.
    + apply Q_clear. exact Hw.
Qed.

Lemma store_inv_run evs : preserves (fun y => Q (store y)) (run evs).
Proof.
  induction evs as [|ev rest IH]; simpl.
  - apply preserves_ret.
  - apply preserves_bind; [apply store_inv_handle|]. intros _. exact IH.
Qed.

End StoreInvariant.

Lemma addReadingCap_elem cap r ds r' :
  r' ∈ Store.readings (Store.after (Store.addReadingCap cap r ds)) ->
  r' ∈ Store.readings ds \/ r' = r.
Proof.
  unfold Store.addReadingCap.
  assert (Hpushed : forall x, x ∈ Store.readings ds ++ [r] ->
                              x ∈ Store.readings ds \/ x = r).
  { intros x Hx. apply elem_of_app in Hx. destruct Hx as [Hx|Hx]; [tauto|].
    apply list_elem_of_singleton in Hx. tauto. }
  destruct (cap <? length (Store.readings ds ++ [r])).
  - destruct (Store.readings ds ++ [r]) as [|x l] eqn:E.
    + simpl. intros H. inversion H.
    + destruct (convertible (x !! "timestamp")); simpl;
        intros H; apply Hpushed; right; exact H.
  - simpl. apply Hpushed.
Qed.

Lemma addReadingCap_length cap r ds :
  length (Store.readings (Store.after (Store.addReadingCap cap r ds))) <=
  S (length (Store.readings ds)).
Proof.
  unfold Store.addReadingCap.
  assert (Hp : length (Store.readings ds ++ [r]) = S (length (Store.readings ds))).
  { rewrite length_app. simpl. lia. }
  destruct (cap <? length (Store.readings ds ++ [r])).
  - destruct (Store.readings ds ++ [r]) as [|x l] eqn:E;
      [|destruct (convertible (x !! "timestamp"))]; simpl in *; lia.
  - simpl. lia.
Qed.

Lemma stamped_lookup (body : JsObject) w f :
  is_Some (body !! f) -> is_Some (stamped body w !! f).
Proof.
  intros Hf. unfold stamped.
  destruct (js_not (body !! "timestamp")); [|exact Hf].
  destruct (decide (f = "timestamp")) as [->|Hne].
  - rewrite lookup_insert_eq. eauto.
  - rewrite lookup_insert_ne by congruence. exact Hf.
Qed.

(** ** The store of a running process *)

(** X1.  Whatever events the process has handled since its start-up, the
    store holds at most [MAX_READINGS] readings, and [getStorageStats]
    reports a current count within the capacity. *)
Theorem X1_store_never_exceeds_capacity
    (clock : nat -> string) (csv_writable : bool) (evs : list Event) :
  let w := snd (run evs (boot clock csv_writable)) in
  length (Store.getAllReadings (store w)) <= Store.MAX_READINGS /\
  Store.currentReadings (Store.getStorageStats (store w)) <=
    Store.maxCapacity (Store.getStorageStats (store w)).
Proof.
  intros w.
  assert (H : length (Store.readings (store w)) <= Store.MAX_READINGS).
  { apply (store_inv_run
             (fun ds => length (Store.readings ds) <= Store.MAX_READINGS)).
    - intros ds body w0 _ Hds.
      apply (addReadingCap_readings Store.MAX_READINGS _ ds Hds).
    - intros ds _. simpl. lia.
    - simpl. lia. }
  split; exact H.
Qed.

(** X2.  Whatever events the process has handled since its start-up,
    every reading in the store has the properties [timestamp],
    [sensor_sn], [ppb], [temperature] and [humidity]. *)
Theorem X2_stored_readings_are_complete
    (clock : nat -> string) (csv_writable : bool) (evs : list Event) :
  complete_readings (store (snd (run evs (boot clock csv_writable)))).
Proof.
  apply (store_inv_run complete_readings).
  - intros ds body w0 Hm Hds r Hr f Hf.
    apply addReadingCap_elem in Hr. destruct Hr as [Hr| ->].
    + apply (Hds r Hr f Hf).
    + apply stamped_lookup. apply missing_fields_nil; assumption.
  - intros ds _ r Hr. inversion Hr.
  - intros r Hr. inversion Hr.
Qed.

(** X3.  No sequence of events, from any world, decreases
    [totalReadingsReceived] or changes [initialized]; in a process that
    has started, [initialized] is the instant read at start-up and the
    number of readings held never exceeds the counter. *)
Theorem X3_metadata_is_monotone
    (w : World) (clock : nat -> string) (csv_writable : bool)
    (evs : list Event) :
  let w' := snd (run evs w) in
  let booted := snd (run evs (boot clock csv_writable)) in
  Store.totalReadingsReceived (Store.metadata (store w)) <=
    Store.totalReadingsReceived (Store.metadata (store w')) /\
  Store.initialized (Store.metadata (store w')) =
    Store.initialized (Store.metadata (store w)) /\
  Store.stats_initialized (Store.getStorageStats (store booted)) =
    Some (clock 0) /\
  Store.currentReadings (Store.getStorageStats (store booted)) <=
    Store.totalProcessed (Store.getStorageStats (store booted)).
Proof.
  intros w' booted.
  split; [|split; [|split]].
  - apply (store_inv_run
             (fun ds => Store.totalReadingsReceived (Store.metadata (store w))
                        <= Store.totalReadingsReceived (Store.metadata ds))).
    + intros ds body w0 _ Hds. unfold Store.addReading.
      rewrite addReadingCap_metadata. simpl. lia.
    + intros ds Hds. exact Hds.
    + lia.
  - apply (store_inv_run
             (fun ds => Store.initialized (Store.metadata ds) =
                        Store.initialized (Store.metadata (store w)))).
    + intros ds body w0 _ Hds. unfold Store.addReading.
      rewrite addReadingCap_metadata. simpl. exact Hds.
    + intros ds Hds. exact Hds.
    + reflexivity.
  - apply (store_inv_run
             (fun ds => Store.initialized (Store.metadata ds) = Some (clock 0))).
    + intros ds body w0 _ Hds. unfold Store.addReading.
      rewrite addReadingCap_metadata. simpl. exact Hds.
    + intros ds Hds. exact Hds.
    + reflexivity.
  - apply (store_inv_run
             (fun ds => length (Store.readings ds) <=
                        Store.totalReadingsReceived (Store.metadata ds))).
    + intros ds body w0 _ Hds. unfold Store.addReading.
      rewrite addReadingCap_metadata. simpl.
      pose proof (addReadingCap_length Store.MAX_READINGS (stamped body w0) ds).
      lia.
    + intros ds _. simpl. lia.
    + simpl. lia.
Qed.

(** ** Ingestion, step by step *)

(** The world that a POST with the five keys leaves, up to the console
    lines that follow the broadcast: the one after the broadcast when the
    append has returned, the one after the append when it has raised. *)
Lemma post_data_world (body : JsObject) w :
  Routes.missing_fields body = [] ->
  exists t,
    snd (Routes.post_data body w) =
    set_trace t
      (if append_returns body w
       then snd (Ws.broadcastToClients (stamped body w)
                   (before_broadcast body w))
       else appended_world body w).
Proof.
  intros Hm. rewrite (post_data_handle body w Hm), handleSensorData_eq.
  cbv zeta. destruct (append_returns body w).
  - destruct (loggable (stamped body w)); eexists; reflexivity.
  - eexists; reflexivity.
Qed.

Lemma appended_world_hub sensorData w :
  sockets (appended_world sensorData w) = sockets w /\
  connectedClients (appended_world sensorData w) = connectedClients w /\
  csv_log (appended_world sensorData w) = csv_log w.
Proof.
  unfold appended_world.
  destruct (js_not (sensorData !! "timestamp")); repeat split; reflexivity.
Qed.

Lemma get_latest_eq w :
  Routes.get_latest w =
  (Returned
     match Store.getLatestReading (store w) with
     | Some r => {| Routes.status := 200; Routes.json := Routes.JsonReading r |}
     | None => {| Routes.status := 404;
                  Routes.json := Routes.JsonError "No readings available yet" |}
     end, w).
Proof.
  unfold Routes.get_latest, Service.getLatestReading, Service.getDataStore,
    Store.getLatestReading, try_catch, mbind, M_bind, gets.
  destruct (length (Store.readings (store w)) =? 0); [reflexivity|].
  cbn beta iota.
  destruct (Store.readings (store w) !! (length (Store.readings (store w)) - 1));
    reflexivity.
Qed.

(** ** Ingestion: further properties *)

(** X4.  At a server that is set up, with a duplicate-free set of
    subscribers, a POST with the five required keys whose append to the
    store returns puts exactly one [sensor_reading] message on the socket of
    every subscriber that is open and does not raise, with the stamped
    reading as data and the instant read for the broadcast, and nothing on
    any other socket; when the append raises, on the eviction line, nothing
    is put on any socket.  The set of subscribers is as it was. *)
Theorem X4_accepted_reading_delivered_once
    (body : JsObject) (w : World)
    (Hvalid : forall f, f ∈ Routes.requiredFields -> is_Some (body !! f))
    (Hserver : wsServer w = true)
    (Hset : NoDup (connectedClients w)) :
  let w' := snd (Routes.post_data body w) in
  let payload :=
    MsgSensorReading (stamped body w) (broadcast_instant body w) in
  (forall c, inbox_of w' c =
             if append_returns body w &&
                bool_decide (c ∈ connectedClients w) && deliverable w c
             then inbox_of w c ++ [payload] else inbox_of w c) /\
  connectedClients w' = connectedClients w.
Proof.
  intros w' payload. apply missing_fields_nil in Hvalid.
  destruct (post_data_world body w Hvalid) as [t Hw'].
  unfold w'. rewrite Hw'. clear Hw'.
  destruct (append_returns body w).
  - destruct (before_broadcast_hub body w) as (Hso & Hcl & Hws & Hck & _).
    set (w3 := before_broadcast body w) in *.
    assert (Hserver3 : wsServer w3 = true) by (rewrite Hws; exact Hserver).
    assert (Hset3 : NoDup (connectedClients w3)) by (rewrite Hcl; exact Hset).
    destruct (broadcastToClients_spec (stamped body w) w3 Hserver3 Hset3)
      as (w4 & fxs & Heq & Hin & Hcl4 & _).
    rewrite Heq. cbn [snd andb]. split.
    + intros c.
      change (inbox_of (set_trace t w4) c) with (inbox_of w4 c).
      rewrite Hin, Hcl, Hck.
      unfold deliverable, inbox_of. rewrite Hso. reflexivity.
    + change (connectedClients (set_trace t w4)) with (connectedClients w4).
      rewrite Hcl4. exact Hcl.
  - destruct (appended_world_hub body w) as (Hso & Hcl & _).
    cbn [andb]. split.
    + intros c. unfold inbox_of.
      change (sockets (set_trace t (appended_world body w)))
        with (sockets (appended_world body w)).
      rewrite Hso. reflexivity.
    + exact Hcl.
Qed.

(** X4, the scenario: A joins, reading 1 is posted, B joins, reading 2 is
    posted; A has received its welcome and both readings, B its welcome
    and the second reading only. *)
Lemma X4_delivered_once_witness :
  let w := Sample.a_then_b in
  let w' := snd (Routes.post_data (Sample.reading 2) w) in
  (forall f, f ∈ Routes.requiredFields -> is_Some (Sample.reading 2 !! f)) /\
  wsServer w = true /\
  NoDup (connectedClients w) /\
  inbox_of w' 0 =
    [MsgConnection "Connected to DGS2 sensor server" (Sample.clock 1) 1;
     MsgSensorReading (Sample.reading 1) (Sample.clock 2);
     MsgSensorReading (Sample.reading 2) (Sample.clock 4)] /\
  inbox_of w' 1 =
    [MsgConnection "Connected to DGS2 sensor server" (Sample.clock 3) 2;
     MsgSensorReading (Sample.reading 2) (Sample.clock 4)].
Proof.
  intros w w'.
  assert (Hvalid : forall f, f ∈ Routes.requiredFields ->
                             is_Some (Sample.reading 2 !! f)).
  { intros f Hf.
    repeat (apply elem_of_cons in Hf; destruct Hf as [->|Hf];
            [vm_compute; eauto|]).
    inversion Hf. }
  assert (Hserver : wsServer w = true) by reflexivity.
  assert (Hset : NoDup (connectedClients w)).
  { apply (bool_decide_unpack (NoDup (connectedClients w))).
    vm_compute. exact I. }
  destruct (X4_accepted_reading_delivered_once _ w Hvalid Hserver Hset)
    as [Hin _].
  split; [exact Hvalid|]. split; [exact Hserver|]. split; [exact Hset|].
  split; (etransitivity; [apply Hin | reflexivity]).
Defined.

(** X5.  A POST with the five required keys appends one line to the CSV
    log, made of the eight values interpolated from the stamped reading,
    exactly when the append to the store has returned, each of the eight
    values can be converted to a string and the log can be written; in
    every other case the log is as it was.  A failure of the CSV step is
    caught: the reading is stored in every case, and the answer, 200 with
    the number of readings held or 500, is the one that the console lines
    decide, whether or not the line was written. *)
Theorem X5_csv_failure_does_not_fail_ingestion
    (body : JsObject) (w : World)
    (Hvalid : forall f, f ∈ Routes.requiredFields -> is_Some (body !! f)) :
  let r := stamped body w in
  let w' := snd (Routes.post_data body w) in
  csv_log w' =
    (if append_returns body w && forallb convertible (csv_row r) &&
        csv_writable w
     then csv_log w ++ [csv_row r] else csv_log w) /\
  store w' = Store.after (Store.addReading r (store w)) /\
  fst (Routes.post_data body w) =
    Returned
      (if ingests_cleanly body w then
         {| Routes.status := 200;
            Routes.json :=
              Routes.JsonReceived (length (Store.readings (store w'))) |}
       else {| Routes.status := 500;
               Routes.json := Routes.JsonError TypeError_convert |}).
Proof.
  intros r w'. apply missing_fields_nil in Hvalid.
  destruct (post_data_after_append body w Hvalid) as [Hs _]. fold w' in Hs.
  split; [|split; [exact Hs|]].
  - destruct (post_data_world body w Hvalid) as [t Hw'].
    unfold w'. rewrite Hw'.
    change (csv_log (set_trace t ?x)) with (csv_log x).
    destruct (append_returns body w); cbn [andb].
    + rewrite broadcast_keeps_csv_log.
      destruct (before_broadcast_hub body w) as (_ & _ & _ & _ & _ & Hcsv).
      exact Hcsv.
    + apply appended_world_hub.
  - rewrite (post_data_response body w Hvalid), Hs. reflexivity.
Qed.

(** X5, two scenarios with one subscriber: a log that cannot be written,
    and a log that can be written with a [sensor_sn] that cannot be
    converted to a string.  In both no line is written, the reading is
    stored and the answer is 200. *)
Lemma X5_csv_failure_witness :
  let body := Sample.reading 3 in
  let w := Sample.read_only_log in
  let w' := snd (Routes.post_data body w) in
  let body2 := <["sensor_sn" := Sample.unprintable]> (Sample.reading 3) in
  let w2 := Sample.one_client in
  let w2' := snd (Routes.post_data body2 w2) in
  (forall f, f ∈ Routes.requiredFields -> is_Some (body !! f)) /\
  (forall f, f ∈ Routes.requiredFields -> is_Some (body2 !! f)) /\
  csv_writable w = false /\
  csv_log w' = [] /\
  Store.getAllReadings (store w') = [body] /\
  fst (Routes.post_data body w) =
    Returned {| Routes.status := 200; Routes.json := Routes.JsonReceived 1 |} /\
  csv_writable w2 = true /\
  csv_log w2' = [] /\
  Store.getAllReadings (store w2') = [body2] /\
  fst (Routes.post_data body2 w2) =
    Returned {| Routes.status := 200; Routes.json := Routes.JsonReceived 1 |}.
Proof.
  intros body w w' body2 w2 w2'.
  assert (Hvalid : forall f, f ∈ Routes.requiredFields -> is_Some (body !! f)).
  { intros f Hf.
    repeat (apply elem_of_cons in Hf; destruct Hf as [->|Hf];
            [vm_compute; eauto|]).
    inversion Hf. }
  assert (Hvalid2 : forall f, f ∈ Routes.requiredFields ->
                              is_Some (body2 !! f)).
  { intros f Hf.
    repeat (apply elem_of_cons in Hf; destruct Hf as [->|Hf];
            [vm_compute; eauto|]).
    inversion Hf. }
  destruct (X5_csv_failure_does_not_fail_ingestion body w Hvalid)
    as (Hcsv & Hst & Hresp).
  destruct (X5_csv_failure_does_not_fail_ingestion body2 w2 Hvalid2)
    as (Hcsv2 & Hst2 & Hresp2).
  split; [exact Hvalid|]. split; [exact Hvalid2|]. split; [reflexivity|].
  split; [etransitivity; [exact Hcsv | reflexivity]|].
  split; [unfold Store.getAllReadings; fold w' in Hst; rewrite Hst;
          reflexivity|].
  split; [etransitivity; [exact Hresp | reflexivity]|].
  split; [reflexivity|].
  split; [etransitivity; [exact Hcsv2 | reflexivity]|].
  split; [unfold Store.getAllReadings; fold w2' in Hst2; rewrite Hst2;
          reflexivity|].
  etransitivity; [exact Hresp2 | reflexivity].
Defined.

(** X6.  After a POST with the five required keys, however it was
    answered, GET [/latest] answers 200 with the stamped reading and GET
    [/all] answers 200 with the readings held, which end with the stamped
    reading, and with their number; neither GET changes anything.  A count
    that the POST returned with a 200 is that number, and the POST does
    answer 200 with it when no console line of the ingestion raises. *)
Theorem X6_post_then_get
    (body : JsObject) (w : World)
    (Hvalid : forall f, f ∈ Routes.requiredFields -> is_Some (body !! f)) :
  let r := stamped body w in
  let w' := snd (Routes.post_data body w) in
  let rs := Store.readings (store w') in
  Routes.get_latest w' =
    (Returned {| Routes.status := 200; Routes.json := Routes.JsonReading r |},
     w') /\
  Routes.get_all w' =
    (Returned {| Routes.status := 200;
                 Routes.json := Routes.JsonAll (length rs) rs |}, w') /\
  last rs = Some r /\
  (forall n,
     fst (Routes.post_data body w) =
       Returned {| Routes.status := 200; Routes.json := Routes.JsonReceived n |} ->
     n = length rs) /\
  (ingests_cleanly body w = true ->
   fst (Routes.post_data body w) =
     Returned {| Routes.status := 200;
                 Routes.json := Routes.JsonReceived (length rs) |}).
Proof.
  intros r w' rs. apply missing_fields_nil in Hvalid.
  pose proof (post_data_latest body w Hvalid) as Hl. fold w' r in Hl.
  destruct (post_data_after_append body w Hvalid) as [Hs _]. fold w' in Hs.
  pose proof (post_data_response body w Hvalid) as Hresp.
  rewrite <- Hs in Hresp. fold rs in Hresp.
  split; [rewrite get_latest_eq, Hl; reflexivity|].
  split; [reflexivity|].
  split; [unfold rs; rewrite <- getLatestReading_last; exact Hl|].
  split.
  - intros n Hn. rewrite Hresp in Hn.
    destruct (ingests_cleanly body w); [|discriminate].
    injection Hn as Hn. symmetry. exact Hn.
  - intros Hclean. rewrite Hresp, Hclean. reflexivity.
Qed.

Lemma X6_post_then_get_witness :
  let body := Sample.reading 5 in
  let w' := snd (Routes.post_data body Sample.a_then_b) in
  (forall f, f ∈ Routes.requiredFields -> is_Some (body !! f)) /\
  Routes.get_latest w' =
    (Returned {| Routes.status := 200; Routes.json := Routes.JsonReading body |},
     w') /\
  fst (Routes.get_all w') =
    Returned {| Routes.status := 200;
                Routes.json := Routes.JsonAll 2 [Sample.reading 1; body] |} /\
  fst (Routes.post_data body Sample.a_then_b) =
    Returned {| Routes.status := 200; Routes.json := Routes.JsonReceived 2 |}.
Proof.
  intros body w'.
  assert (Hvalid : forall f, f ∈ Routes.requiredFields -> is_Some (body !! f)).
  { intros f Hf.
    repeat (apply elem_of_cons in Hf; destruct Hf as [->|Hf];
            [vm_compute; eauto|]).
    inversion Hf. }
  destruct (X6_post_then_get body Sample.a_then_b Hvalid)
    as (Hlatest & _ & _ & _ & Hresp).
  split; [exact Hvalid|]. split; [exact Hlatest|]. split; [reflexivity|].
  etransitivity; [apply Hresp; vm_compute; reflexivity | reflexivity].
Defined.

(** ** The hub: further properties *)

(** The ['connection'] event at a server that is set up, up to the send of
    the welcome message. *)
Lemma handle_connection_eq w clientIp broken :
  wsServer w = true ->
  let n := next_socket w in
  let joined := Ws.set_add n (connectedClients w) in
  handle (EvConnection clientIp broken) w =
  ws_send n
    (MsgConnection "Connected to DGS2 sensor server"
       (clock w (clock_reads w)) (length joined))
    (set_clock_reads (S (clock_reads w))
       (set_connectedClients joined
          (set_trace (trace w ++ [FxLog (LogWsConnected clientIp)])
             (accepted clientIp broken w)))).
Proof.
  intros Hserver n joined.
  unfold handle, mbind, M_bind, gets. rewrite Hserver. reflexivity.
Qed.

(** X7.  When a connection is accepted at a server that is set up and the
    socket does not raise, the handler returns, the new socket is in the
    set, the one message it has received is the welcome, which carries the
    instant read and the size of the set with the new socket in it (what
    [getConnectedClientCount] returns afterwards), and no other socket has
    received anything. *)
Theorem X7_welcome_carries_client_count
    (w : World) (clientIp : string)
    (Hserver : wsServer w = true) :
  let n := next_socket w in
  let w' := snd (handle (EvConnection clientIp false) w) in
  fst (handle (EvConnection clientIp false) w) = Returned tt /\
  n ∈ connectedClients w' /\
  inbox_of w' n =
    [MsgConnection "Connected to DGS2 sensor server"
       (clock w (clock_reads w)) (length (connectedClients w'))] /\
  fst (Ws.getConnectedClientCount w') =
    Returned (length (connectedClients w')) /\
  (forall c, c <> n -> inbox_of w' c = inbox_of w c) /\
  (forall c, c ∈ connectedClients w -> c ∈ connectedClients w').
Proof.
  intros n w'. unfold w'.
  rewrite (handle_connection_eq w clientIp false Hserver).
  fold n. rewrite ws_send_eq.
  set (w3 := set_clock_reads _ _).
  assert (Hs : sockets w3 !! n = Some (mkSocket clientIp OPEN false [])).
  { unfold w3, accepted.
    cbn [sockets set_clock_reads set_connectedClients set_trace
         set_next_socket set_sockets].
    apply lookup_insert_eq. }
  assert (Hd : deliverable w3 n = true).
  { unfold deliverable. rewrite Hs. reflexivity. }
  rewrite Hd. cbn [fst snd].
  assert (Hcl : connectedClients (delivered n
                  (MsgConnection "Connected to DGS2 sensor server"
                     (clock w (clock_reads w))
                     (length (Ws.set_add n (connectedClients w)))) w3) =
                Ws.set_add n (connectedClients w)).
  { unfold delivered. rewrite Hs. reflexivity. }
  rewrite Hcl.
  split; [reflexivity|].
  split; [apply set_add_elem; left; reflexivity|].
  split.
  { rewrite inbox_of_delivered by exact Hd.
    rewrite bool_decide_eq_true_2 by reflexivity.
    unfold inbox_of. rewrite Hs. reflexivity. }
  split.
  { unfold Ws.getConnectedClientCount, gets. cbn [fst]. rewrite Hcl.
    reflexivity. }
  split.
  - intros c Hc. rewrite inbox_of_delivered by exact Hd.
    rewrite bool_decide_eq_false_2 by exact Hc.
    unfold inbox_of, w3, accepted.
    cbn [sockets set_clock_reads set_connectedClients set_trace
         set_next_socket set_sockets].
    rewrite lookup_insert_ne by (intros E; apply Hc; symmetry; exact E).
    reflexivity.
  - intros c Hc. apply set_add_elem. right. exact Hc.
Qed.

Lemma X7_welcome_witness :
  let w := Sample.one_client in
  let w' := snd (handle (EvConnection "10.0.0.9" false) w) in
  wsServer w = true /\
  connectedClients w' = [0; 1] /\
  inbox_of w' 1 =
    [MsgConnection "Connected to DGS2 sensor server" (Sample.clock 2) 2] /\
  inbox_of w' 0 = inbox_of w 0.
Proof.
  intros w w'.
  assert (Hserver : wsServer w = true) by reflexivity.
  destruct (X7_welcome_carries_client_count w "10.0.0.9" Hserver)
    as (_ & _ & Hin & _ & Hother & _).
  split; [exact Hserver|]. split; [reflexivity|].
  split; [exact Hin|]. apply Hother. discriminate.
Defined.

(** X8.  The welcome message is sent outside any [try]: when that send
    raises, the exception leaves the ['connection'] handler, with the socket
    already in the set, and the events that follow are not handled. *)
Theorem X8_welcome_failure_is_not_caught
    (w : World) (clientIp : string) (rest : list Event)
    (Hserver : wsServer w = true) :
  let w' := snd (handle (EvConnection clientIp true) w) in
  fst (handle (EvConnection clientIp true) w) = Thrown "send failed" /\
  next_socket w ∈ connectedClients w' /\
  inbox_of w' (next_socket w) = [] /\
  run (EvConnection clientIp true :: rest) w =
    (Thrown "send failed", w').
Proof.
  intros w'.
  assert (Heq : handle (EvConnection clientIp true) w =
                (Thrown "send failed", w') /\
                next_socket w ∈ connectedClients w' /\
                inbox_of w' (next_socket w) = []).
  { unfold w'. rewrite (handle_connection_eq w clientIp true Hserver).
    rewrite ws_send_eq. set (w3 := set_clock_reads _ _).
    assert (Hs : sockets w3 !! next_socket w =
                 Some (mkSocket clientIp OPEN true [])).
    { unfold w3, accepted.
      cbn [sockets set_clock_reads set_connectedClients set_trace
           set_next_socket set_sockets].
      apply lookup_insert_eq. }
    assert (Hd : deliverable w3 (next_socket w) = false).
    { unfold deliverable. rewrite Hs. reflexivity. }
    assert (He : send_error (sockets w3 !! next_socket w) = Some "send failed").
    { rewrite Hs. reflexivity. }
    rewrite Hd, He. cbn [fst snd]. split; [reflexivity|]. split.
    - cbn [connectedClients set_trace]. unfold w3.
      cbn [connectedClients set_clock_reads set_connectedClients].
      apply set_add_elem. left. reflexivity.
    - unfold inbox_of. cbn [sockets set_trace]. rewrite Hs. reflexivity. }
  destruct Heq as (Heq & Hin & Hbox).
  rewrite Heq. cbn [fst]. split; [reflexivity|]. split; [exact Hin|].
  split; [exact Hbox|].
  cbn [run]. unfold mbind, M_bind. rewrite Heq. reflexivity.
Qed.

Lemma X8_welcome_failure_witness :
  let w := Sample.one_client in
  wsServer w = true /\
  fst (run [EvConnection "10.0.0.9" true; EvPostData (Sample.reading 1)] w) =
    Thrown "send failed" /\
  Store.getAllReadings
    (store (snd (run [EvConnection "10.0.0.9" true;
                      EvPostData (Sample.reading 1)] w))) = [].
Proof.
  intros w.
  assert (Hserver : wsServer w = true) by reflexivity.
  destruct (X8_welcome_failure_is_not_caught w "10.0.0.9"
              [EvPostData (Sample.reading 1)] Hserver)
    as (_ & _ & _ & Hrun).
  split; [exact Hserver|]. rewrite Hrun. split; reflexivity.
Defined.

(** What a frame does to the sockets: a [ping] on a socket that is open
    and does not raise puts a [pong] with the instant read on that socket;
    any other frame, and a [ping] on any other socket, puts nothing
    anywhere. *)
Lemma on_message_inbox ws clientIp data w c :
  inbox_of (snd (Ws.on_message ws clientIp data w)) c =
  if ping_frame data && bool_decide (c = ws) && deliverable w ws
  then inbox_of w c ++ [MsgPong (clock w (clock_reads w))]
  else inbox_of w c.
Proof.
  unfold Ws.on_message, try_catch, mbind, M_bind, Ws.JSON_parse, ping_frame.
  destruct data as [v|]; [|reflexivity].
  unfold mret at 1. unfold M_ret at 1. cbn beta iota.
  destruct v; try reflexivity. cbn [Ws.message_type].
  unfold mret at 1. unfold M_ret at 1. cbn beta iota.
  unfold console at 1. unfold emit, modify. cbn beta iota.
  destruct (Ws.is_ping (Ws.obj_get "type" fields)); [|reflexivity].
  unfold new_Date_toISOString. cbn beta iota.
  rewrite ws_send_eq.
  match goal with
  | |- context [deliverable ?x ws] =>
      change (deliverable x ws) with (deliverable w ws)
  end.
  destruct (deliverable w ws) eqn:Hd.
  - cbn [fst snd andb]. rewrite inbox_of_delivered by exact Hd.
    rewrite andb_true_r. reflexivity.
  - rewrite andb_false_r.
    match goal with
    | |- context [send_error ?x] => destruct (send_error x)
    end; reflexivity.
Qed.

(** X9.  A message from a subscriber never throws and never changes the
    set of subscribers or the store.  A frame that parses to an object of
    [type] [ping], on a socket that is open and does not raise, is answered
    with one [pong] on that socket carrying the instant read; every other
    frame (no JSON, [null], another type) and every other socket gets
    nothing. *)
Theorem X9_ping_is_answered_on_the_same_socket
    (w : World) (ws : nat) (data : option JsValue) :
  let w' := snd (handle (EvMessage ws data) w) in
  fst (handle (EvMessage ws data) w) = Returned tt /\
  connectedClients w' = connectedClients w /\
  store w' = store w /\
  forall c,
    inbox_of w' c =
    if ping_frame data && bool_decide (c = ws) && deliverable w ws
    then inbox_of w c ++ [MsgPong (clock w (clock_reads w))]
    else inbox_of w c.
Proof.
  intros w'.
  split; [|split; [|split]].
  - unfold handle, with_socket, mbind, M_bind, gets.
    destruct (sockets w !! ws) as [sock|]; [|reflexivity].
    destruct (returns_on_message ws (remoteAddress sock) data w) as [[] Hr].
    exact Hr.
  - apply (inv_with_socket (fun y => connectedClients y = connectedClients w));
      [|reflexivity].
    intros ip.
    apply (inv_on_message (fun y => connectedClients y = connectedClients w));
      solve [frame_step].
  - apply hub_event_keeps_store. reflexivity.
  - intros c. unfold w', handle, with_socket, mbind, M_bind, gets.
    destruct (sockets w !! ws) as [sock|] eqn:Hs.
    + apply on_message_inbox.
    + cbn [snd]. unfold deliverable. rewrite Hs, andb_false_r. reflexivity.
Qed.

Lemma set_delete_absent (ws : nat) (cs : list nat) :
  ws ∉ cs -> Ws.set_delete ws cs = cs.
Proof.
  intros Hout. unfold Ws.set_delete. induction cs as [|c cs IH]; [reflexivity|].
  simpl. apply not_elem_of_cons in Hout. destruct Hout as [Hne Hout].
  assert (Hc : (c =? ws) = false) by (apply Nat.eqb_neq; congruence).
  rewrite Hc. simpl. rewrite IH by exact Hout. reflexivity.
Qed.

Lemma set_delete_sublist (ws : nat) (cs : list nat) :
  sublist (Ws.set_delete ws cs) cs.
Proof.
  unfold Ws.set_delete. induction cs as [|c cs IH]; simpl.
  - constructor.
  - destruct (negb (c =? ws)); [apply sublist_skip | apply sublist_cons];
      exact IH.
Qed.

(** X10.  Handling the ['close'] event of a socket takes that socket out of
    the set and leaves the other subscribers in it, in their order;
    handling it once more changes neither the set nor any socket, and for a
    socket that was not in the set the set is left as it was. *)
Theorem X10_close_is_idempotent (w : World) (ws : nat) :
  let w1 := snd (handle (EvClose ws) w) in
  let w2 := snd (handle (EvClose ws) w1) in
  connectedClients w2 = connectedClients w1 /\
  sockets w2 = sockets w1 /\
  sublist (connectedClients w1) (connectedClients w) /\
  (forall c, c <> ws -> (c ∈ connectedClients w1 <-> c ∈ connectedClients w)) /\
  ((ws ∉ connectedClients w) -> connectedClients w1 = connectedClients w).
Proof.
  intros w1 w2. destruct (sockets w !! ws) as [sock|] eqn:E.
  - assert (Hw1 : handle (EvClose ws) w = (Returned tt, w1)).
    { unfold w1. rewrite (handle_close_eq w ws sock E). reflexivity. }
    assert (Hc1 : connectedClients w1 = Ws.set_delete ws (connectedClients w)).
    { unfold w1. rewrite (handle_close_eq w ws sock E). reflexivity. }
    assert (Hs1 : sockets w1 =
                  <[ws := mkSocket (remoteAddress sock) CLOSED
                            (send_throws sock) (inbox sock)]> (sockets w)).
    { unfold w1. rewrite (handle_close_eq w ws sock E). reflexivity. }
    assert (E1 : sockets w1 !! ws =
                 Some (mkSocket (remoteAddress sock) CLOSED
                         (send_throws sock) (inbox sock))).
    { rewrite Hs1. apply lookup_insert_eq. }
    unfold w2. rewrite (handle_close_eq w1 ws _ E1).
    cbn [snd connectedClients sockets set_trace set_connectedClients
         set_sockets remoteAddress send_throws inbox].
    split; [|split; [|split; [|split]]].
    + apply set_delete_absent. rewrite Hc1. apply set_delete_not_in.
    + rewrite Hs1. apply insert_insert_eq.
    + rewrite Hc1. apply set_delete_sublist.
    + intros c Hc. rewrite Hc1, set_delete_elem. tauto.
    + intros Hout. rewrite Hc1. apply set_delete_absent. exact Hout.
  - assert (Hw : handle (EvClose ws) w = (Returned tt, w)).
    { unfold handle, socket_state, with_socket, mbind, M_bind, gets, modify.
      cbn beta iota. rewrite E. cbn. rewrite E. reflexivity. }
    unfold w2, w1. rewrite Hw. cbn [snd]. rewrite Hw. cbn [snd].
    repeat split; auto.
Qed.

Lemma X10_close_witness :
  let w := Sample.three_clients in
  let w1 := snd (handle (EvClose 1) w) in
  let v1 := snd (handle (EvClose 7) w) in
  (7 ∉ connectedClients w) /\
  connectedClients w1 = [0; 2] /\
  connectedClients (snd (handle (EvClose 1) w1)) = [0; 2] /\
  connectedClients v1 = [0; 1; 2].
Proof.
  intros w w1 v1.
  assert (Hout : 7 ∉ connectedClients w).
  { intros Hin. apply list_elem_of_In in Hin. vm_compute in Hin.
    repeat (destruct Hin as [Hin|Hin]; [discriminate|]). exact Hin. }
  destruct (X10_close_is_idempotent w 7) as (_ & _ & _ & _ & Habsent).
  split; [exact Hout|]. split; [reflexivity|]. split; [reflexivity|].
  etransitivity; [apply Habsent; exact Hout | reflexivity].
Defined.

(** ** The range query *)

Lemma filter_sublist {A : Type} (f : A -> bool) (l : list A) :
  sublist (List.filter f l) l.
Proof.
  induction l as [|x l IH]; simpl.
  - constructor.
  - destruct (f x); [apply sublist_skip | apply sublist_cons]; exact IH.
Qed.

Lemma filter_sublist_mono {A : Type} (f g : A -> bool) (l : list A) :
  (forall x, f x = true -> g x = true) ->
  sublist (List.filter f l) (List.filter g l).
Proof.
  intros Hfg. induction l as [|x l IH]; simpl.
  - constructor.
  - destruct (f x) eqn:Hf.
    + rewrite (Hfg x Hf). apply sublist_skip. exact IH.
    + destruct (g x); [apply sublist_cons|]; exact IH.
Qed.

Lemma in_range_spec (t start end_ : option Z) :
  TimeRange.js_ge t start && TimeRange.js_le t end_ = true <->
  exists x s e, t = Some x /\ start = Some s /\ end_ = Some e /\
                (s <= x <= e)%Z.
Proof.
  unfold TimeRange.js_ge, TimeRange.js_le. split.
  - destruct t as [x|], start as [s|], end_ as [e|]; simpl;
      try discriminate; try (rewrite andb_false_r; discriminate).
    rewrite andb_true_iff, !Z.leb_le. intros [H1 H2].
    exists x, s, e. repeat split; assumption.
  - intros (x & s & e & -> & -> & -> & H1 & H2).
    rewrite andb_true_iff, !Z.leb_le. split; assumption.
Qed.

Section RangeFacts.

Variable Date_parse : string -> option Z.
Variable ToString : JsValue -> string.

(** The construction of a date raises exactly on a value that cannot be
    converted. *)
Lemma Date_getTime_eq (v : option JsValue) :
  TimeRange.Date_getTime Date_parse ToString v =
  if convertible v then Returned (instant Date_parse ToString v)
  else Thrown TypeError_convert.
Proof.
  unfold instant, TimeRange.Date_getTime, convertible.
  destruct v as [[| | | |items|fields]|]; try reflexivity.
  - destruct (can_convert (JsArr items)); reflexivity.
  - destruct (can_convert (JsObj fields)); reflexivity.
Qed.

(** The filter raises exactly when some reading has a timestamp that
    cannot be converted, whatever the bounds are; otherwise it keeps the
    readings whose instant is within the bounds. *)
Lemma filter_range_eq (a b : option Z) (rs : list Reading) :
  TimeRange.filter_range Date_parse ToString a b rs =
  if forallb (fun r => convertible (r !! "timestamp")) rs
  then Returned (List.filter (within Date_parse ToString a b) rs)
  else Thrown TypeError_convert.
Proof.
  induction rs as [|r rs IH]; [reflexivity|].
  cbn [TimeRange.filter_range forallb List.filter].
  rewrite Date_getTime_eq, IH.
  destruct (convertible (r !! "timestamp")); [|reflexivity].
  cbn [andb]. destruct (forallb _ rs); reflexivity.
Qed.

Lemma new_Date_getTime_eq (a : TimeRange.DateArg) :
  TimeRange.new_Date_getTime Date_parse ToString a =
  if bound_ok a then Returned (bound Date_parse ToString a)
  else Thrown TypeError_convert.
Proof.
  destruct a as [t|v]; [reflexivity|]. apply Date_getTime_eq.
Qed.

Lemma getReadingsByTimeRange_eq (a b : TimeRange.DateArg)
    (ds : Store.DataStore) :
  TimeRange.getReadingsByTimeRange Date_parse ToString a b ds =
  if range_returns a b ds
  then Returned (List.filter
                   (within Date_parse ToString (bound Date_parse ToString a)
                      (bound Date_parse ToString b))
                   (Store.readings ds))
  else Thrown TypeError_convert.
Proof.
  unfold TimeRange.getReadingsByTimeRange, range_returns.
  rewrite !new_Date_getTime_eq.
  destruct (bound_ok a); [|reflexivity].
  destruct (bound_ok b); [|reflexivity].
  apply filter_range_eq.
Qed.

Lemma within_elem (a b : option Z) (rs : list Reading) (r : Reading) :
  r ∈ List.filter (within Date_parse ToString a b) rs <->
  r ∈ rs /\
  exists t s e,
    instant Date_parse ToString (r !! "timestamp") = Some t /\
    a = Some s /\ b = Some e /\ (s <= t <= e)%Z.
Proof.
  rewrite !list_elem_of_In, List.filter_In. unfold within.
  rewrite in_range_spec. reflexivity.
Qed.

End RangeFacts.

(** X11.  [getReadingsByTimeRange] raises the [TypeError] of the
    conversion when the date of an argument, or of the timestamp of some
    stored reading, cannot be constructed, whatever the other values are.
    Otherwise it returns, in arrival order, exactly the stored readings
    whose timestamp is a valid date within the two bounds, both included: a
    reading without timestamp is never returned, a reading whose timestamp
    is a number is returned exactly when the number is a time value within
    the bounds, and with a bound that is an invalid date nothing is
    returned. *)
Theorem X11_time_range_selects_within_bounds
    (Date_parse : string -> option Z) (ToString : JsValue -> string)
    (startTime endTime : TimeRange.DateArg) (ds : Store.DataStore) :
  let result :=
    TimeRange.getReadingsByTimeRange Date_parse ToString startTime endTime ds in
  let start := bound Date_parse ToString startTime in
  let end_ := bound Date_parse ToString endTime in
  (range_returns startTime endTime ds = false ->
   result = Thrown TypeError_convert) /\
  (range_returns startTime endTime ds = true ->
   exists rs,
     result = Returned rs /\
     sublist rs (Store.getAllReadings ds) /\
     (forall r,
        r ∈ rs <->
        r ∈ Store.getAllReadings ds /\
        exists t s e,
          instant Date_parse ToString (r !! "timestamp") = Some t /\
          start = Some s /\ end_ = Some e /\ (s <= t <= e)%Z) /\
     (forall r, r !! "timestamp" = None -> r ∉ rs) /\
     (forall r x,
        r !! "timestamp" = Some (JsNum x) ->
        (r ∈ rs <->
         r ∈ Store.getAllReadings ds /\
         exists t s e,
           TimeRange.TimeClip x = Some t /\
           start = Some s /\ end_ = Some e /\ (s <= t <= e)%Z)) /\
     (start = None \/ end_ = None -> rs = [])).
Proof.
  intros result start end_. unfold result. rewrite getReadingsByTimeRange_eq.
  fold start end_.
  split; [intros ->; reflexivity|]. intros ->.
  eexists. split; [reflexivity|].
  pose proof (fun r => within_elem Date_parse ToString start end_
                         (Store.readings ds) r) as Helem.
  split; [apply filter_sublist|]. split; [exact Helem|].
  split; [|split].
  - intros r Hnone Hr. apply Helem in Hr.
    destruct Hr as (_ & t & s & e & Ht & _).
    rewrite Hnone in Ht. discriminate.
  - intros r x Hx. rewrite Helem, Hx. reflexivity.
  - intros Hnan.
    destruct (List.filter (within Date_parse ToString start end_)
                (Store.readings ds)) as [|r l] eqn:E; [reflexivity|].
    assert (Hr : r ∈ List.filter (within Date_parse ToString start end_)
                       (Store.readings ds)) by (rewrite E; left).
    apply within_elem in Hr. destruct Hr as (_ & t & s & e & _ & Hs & He & _).
    destruct Hnan; congruence.
Qed.

(** X11, two stores: readings at 10, 20 and 30 ms and one without
    timestamp, of which the range from 15 to 30 holds the second and the
    third; and the same store after a reading whose timestamp is
    [{"toString": 1}], on which the call raises. *)
Lemma X11_time_range_witness :
  let rs := map Sample.at_ms [10; 20; 30]%positive ++ [Sample.untimed 1] in
  let ds := {| Store.readings := rs;
               Store.metadata := Store.metadata Store.dataStore |} in
  let ds2 := {| Store.readings :=
                  rs ++ [<["timestamp" := Sample.unprintable]>
                           (Sample.untimed 1)];
                Store.metadata := Store.metadata Store.dataStore |} in
  let startTime := TimeRange.ADate (Some 15%Z) in
  let endTime := TimeRange.AValue (Some (Sample.num 30)) in
  range_returns startTime endTime ds = true /\
  range_returns startTime endTime ds2 = false /\
  TimeRange.getReadingsByTimeRange Sample.parse Sample.object_string
    startTime endTime ds =
    Returned [Sample.at_ms 20; Sample.at_ms 30] /\
  TimeRange.getReadingsByTimeRange Sample.parse Sample.object_string
    startTime endTime ds2 = Thrown TypeError_convert.
Proof.
  intros rs ds ds2 startTime endTime.
  assert (Hd : range_returns startTime endTime ds = true) by reflexivity.
  assert (Hd2 : range_returns startTime endTime ds2 = false) by reflexivity.
  split; [exact Hd|]. split; [exact Hd2|].
  destruct (X11_time_range_selects_within_bounds Sample.parse
              Sample.object_string startTime endTime ds) as [_ H].
  destruct (H Hd) as (l & Hl & _).
  destruct (X11_time_range_selects_within_bounds Sample.parse
              Sample.object_string startTime endTime ds2) as [H2 _].
  assert (El : l = [Sample.at_ms 20; Sample.at_ms 30]).
  { assert (E : Returned l = Returned [Sample.at_ms 20; Sample.at_ms 30])
      by (rewrite <- Hl; reflexivity).
    injection E as E. exact E. }
  split; [rewrite Hl, El; reflexivity | exact (H2 Hd2)].
Defined.

(** X12.  Whether [getReadingsByTimeRange] raises does not depend on the
    instants of its bounds.  On a store on which it returns, widening the
    range never loses a reading: the readings of a range are, in order,
    among those of any range that contains it; and a range whose start is
    after its end is empty. *)
Theorem X12_time_range_is_monotone
    (Date_parse : string -> option Z) (ToString : JsValue -> string)
    (s s' e e' : Z) (ds : Store.DataStore)
    (Hstart : (s' <= s)%Z) (Hend : (e <= e')%Z) :
  let narrow :=
    TimeRange.getReadingsByTimeRange Date_parse ToString
      (TimeRange.ADate (Some s)) (TimeRange.ADate (Some e)) ds in
  let wide :=
    TimeRange.getReadingsByTimeRange Date_parse ToString
      (TimeRange.ADate (Some s')) (TimeRange.ADate (Some e')) ds in
  (dated ds = false ->
   narrow = Thrown TypeError_convert /\ wide = Thrown TypeError_convert) /\
  (dated ds = true ->
   exists rs rs',
     narrow = Returned rs /\ wide = Returned rs' /\
     sublist rs rs' /\
     ((e < s)%Z -> rs = [])).
Proof.
  intros narrow wide. unfold narrow, wide.
  rewrite !getReadingsByTimeRange_eq. unfold range_returns.
  cbn [bound_ok bound andb].
  split; [intros ->; split; reflexivity|]. intros ->.
  eexists _, _. split; [reflexivity|]. split; [reflexivity|]. split.
  - apply filter_sublist_mono.
    intros r. unfold within. rewrite !in_range_spec.
    intros (t & a & b & Ht & Ha & Hb & Hr).
    injection Ha as <-. injection Hb as <-.
    exists t, s', e'. repeat split; try assumption; lia.
  - intros Hlt.
    destruct (List.filter (within Date_parse ToString (Some s) (Some e))
                (Store.readings ds)) as [|r l] eqn:E; [reflexivity|].
    assert (Hr : r ∈ List.filter (within Date_parse ToString (Some s) (Some e))
                       (Store.readings ds)) by (rewrite E; left).
    apply within_elem in Hr.
    destruct Hr as (_ & t & a & b & _ & Ha & Hb & Hr).
    injection Ha as <-. injection Hb as <-. lia.
Qed.

Lemma X12_time_range_witness :
  let ds := {| Store.readings := map Sample.at_ms [10; 20; 30]%positive;
               Store.metadata := Store.metadata Store.dataStore |} in
  (5 <= 15)%Z /\ (25 <= 35)%Z /\
  TimeRange.getReadingsByTimeRange Sample.parse Sample.object_string
    (TimeRange.ADate (Some 15%Z)) (TimeRange.ADate (Some 25%Z)) ds =
    Returned [Sample.at_ms 20] /\
  TimeRange.getReadingsByTimeRange Sample.parse Sample.object_string
    (TimeRange.ADate (Some 5%Z)) (TimeRange.ADate (Some 35%Z)) ds =
    Returned (map Sample.at_ms [10; 20; 30]%positive) /\
  sublist [Sample.at_ms 20] (map Sample.at_ms [10; 20; 30]%positive).
Proof.
  intros ds.
  assert (H1 : (5 <= 15)%Z) by lia.
  assert (H2 : (25 <= 35)%Z) by lia.
  split; [exact H1|]. split; [exact H2|].
  destruct (X12_time_range_is_monotone Sample.parse Sample.object_string
              15 5 25 35 ds H1 H2) as [_ H].
  destruct (H eq_refl) as (rs & rs' & Hn & Hw & Hsub & _).
  assert (Ers : rs = [Sample.at_ms 20]).
  { assert (E : Returned rs = Returned [Sample.at_ms 20])
      by (rewrite <- Hn; reflexivity).
    injection E as E. exact E. }
  assert (Ers' : rs' = map Sample.at_ms [10; 20; 30]%positive).
  { assert (E : Returned rs' = Returned (map Sample.at_ms [10; 20; 30]%positive))
      by (rewrite <- Hw; reflexivity).
    injection E as E. exact E. }
  split; [rewrite Hn, Ers; reflexivity|].
  split; [rewrite Hw, Ers'; reflexivity|].
  rewrite <- Ers, <- Ers'. exact Hsub.
Defined.

(** ** The creation of the CSV log *)

(** X13.  [initializeCsvLog] never touches a log file that exists: its
    content is left as it is and no creation is reported, whether or not
    the file system raises; and when the directory exists as well the call
    returns. *)
Theorem X13_existing_csv_log_is_kept
    (fs : CsvLog.Files) (content : string)
    (Hfile : CsvLog.csvFile fs = Some content) :
  let '(out, fs', created) := CsvLog.initializeCsvLog fs in
  CsvLog.csvFile fs' = Some content /\
  created = false /\
  (CsvLog.logsDir fs = true -> out = Returned tt /\ fs' = fs).
Proof.
  unfold CsvLog.initializeCsvLog, CsvLog.mkdirSync.
  destruct (CsvLog.logsDir fs) eqn:Hdir; simpl.
  - rewrite Hfile. repeat split; auto.
  - destruct (CsvLog.fs_raises fs); simpl; rewrite ?Hfile;
      repeat split; auto; discriminate.
Qed.

Lemma X13_existing_csv_log_witness :
  let fs := CsvLog.mkFiles true (Some "timestamp,old header") true in
  CsvLog.csvFile fs = Some "timestamp,old header" /\
  CsvLog.initializeCsvLog fs = (Returned tt, fs, false).
Proof.
  intros fs.
  assert (Hfile : CsvLog.csvFile fs = Some "timestamp,old header")
    by reflexivity.
  split; [exact Hfile|].
  pose proof (X13_existing_csv_log_is_kept fs _ Hfile) as H.
  destruct (CsvLog.initializeCsvLog fs) as [[out fs'] created].
  destruct H as (_ & -> & Hret). destruct (Hret eq_refl) as [-> ->].
  reflexivity.
Defined.

(** X14.  On a file system that does not raise, [initializeCsvLog]
    returns with the directory and the log file in place; a file that was
    missing is created with the header alone, whose columns are those that
    [appendToCSVLog] writes, in the same order; and a second call changes
    nothing and reports no creation. *)
Theorem X14_csv_log_creation_is_idempotent
    (fs : CsvLog.Files)
    (Hok : CsvLog.fs_raises fs = false) :
  let '(out, fs', created) := CsvLog.initializeCsvLog fs in
  out = Returned tt /\
  CsvLog.logsDir fs' = true /\
  CsvLog.csvFile fs' = Some (default CsvLog.header (CsvLog.csvFile fs)) /\
  created = bool_decide (CsvLog.csvFile fs = None) /\
  CsvLog.initializeCsvLog fs' = (Returned tt, fs', false) /\
  CsvLog.header =
    String.concat "," Service.csv_columns +:+ String (Ascii.ascii_of_nat 10) "".
Proof.
  unfold CsvLog.initializeCsvLog, CsvLog.mkdirSync, CsvLog.writeFileSync.
  destruct fs as [dir file raises]. simpl in Hok. subst raises.
  destruct dir, file as [content|]; simpl; repeat split; reflexivity.
Qed.

Lemma X14_csv_log_creation_witness :
  let fs := CsvLog.mkFiles false None false in
  CsvLog.fs_raises fs = false /\
  CsvLog.initializeCsvLog fs =
    (Returned tt, CsvLog.mkFiles true (Some CsvLog.header) false, true).
Proof.
  intros fs.
  assert (Hok : CsvLog.fs_raises fs = false) by reflexivity.
  split; [exact Hok|].
  pose proof (X14_csv_log_creation_is_idempotent fs Hok) as H.
  destruct (CsvLog.initializeCsvLog fs) as [[out fs'] created] eqn:E.
  destruct H as (-> & _). vm_compute in E. injection E as <- <-.
  reflexivity.
Defined.

(** ** The window of a graph *)

Lemma updates_nonempty {A : Type} (values : list A) : forall arr : list A,
  arr <> [] ->
  Dashboard.updates arr values = drop (length values) (arr ++ values).
Proof.
  induction values as [|v vs IH]; intros arr Harr.
  - simpl. rewrite app_nil_r. reflexivity.
  - destruct arr as [|a arr']; [congruence|].
    unfold Dashboard.updates in *. cbn [foldl].
    unfold Dashboard.updateArrayWithHistory at 2. cbn [tail].
    rewrite IH by (destruct arr'; discriminate).
    rewrite <- app_assoc. reflexivity.
Qed.

(** X15.  A series that is not empty keeps its length over any number of
    updates and holds the last values of the old series followed by the
    new ones, the oldest dropped first; a series that is empty grows to one
    value at its first update and holds the latest value from then on. *)
Theorem X15_graph_window_keeps_its_length
    {A : Type} (arr values : list A) :
  (arr <> [] ->
   length (Dashboard.updates arr values) = length arr /\
   Dashboard.updates arr values = drop (length values) (arr ++ values)) /\
  Dashboard.updates [] values = drop (length values - 1) values.
Proof.
  split.
  - intros Harr. rewrite updates_nonempty by exact Harr.
    split; [|reflexivity]. rewrite length_drop, length_app. lia.
  - destruct values as [|v vs]; [reflexivity|].
    unfold Dashboard.updates. cbn [foldl].
    change (Dashboard.updateArrayWithHistory [] v) with [v].
    fold (Dashboard.updates [v] vs).
    rewrite updates_nonempty by discriminate.
    replace (length (v :: vs) - 1) with (length vs) by (simpl; lia).
    reflexivity.
Qed.

Lemma X15_graph_window_witness :
  [0; 0; 0] <> [] /\
  Dashboard.updates [0; 0; 0] [5; 6; 7; 8] = [6; 7; 8] /\
  Dashboard.updates ([] : list nat) [5; 6] = [6].
Proof.
  assert (H : [0; 0; 0] <> []) by discriminate.
  split; [exact H|].
  destruct (X15_graph_window_keeps_its_length [0; 0; 0] [5; 6; 7; 8])
    as [Hne _].
  destruct (Hne H) as [_ Heq].
  split; [exact Heq | reflexivity].
Defined.

(** ** The sockets of a running process *)

Lemma sockets_bound_run evs w :
  sockets_bound w -> sockets_bound (snd (run evs w)).
Proof.
  apply (inv_run sockets_bound (fun _ => True)); unfold sockets_bound.
  - frame_step.
  - frame_step.
  - frame_step.
  - frame_step.
  - intros w0 c m Hb Hd k. unfold delivered, deliverable in *.
    destruct (sockets w0 !! c) as [sc|] eqn:Hsc; [|discriminate].
    simpl. destruct (decide (k = c)) as [->|Hne].
    + intros _. apply Hb. rewrite Hsc. eauto.
    + rewrite lookup_insert_ne by congruence. apply Hb.
  - frame_step.
  - frame_step.
  - intros w0 ip b Hb. split; [|exact I]. intros k. unfold accepted. simpl.
    destruct (decide (k = next_socket w0)) as [->|Hne]; [lia|].
    rewrite lookup_insert_ne by congruence. intros Hk.
    specialize (Hb k Hk). lia.
  - intros w0 c sc st b Hb Hsc _ k. simpl.
    destruct (decide (k = c)) as [->|Hne].
    + intros _. apply Hb. rewrite Hsc. eauto.
    + rewrite lookup_insert_ne by congruence. apply Hb.
Qed.

(** X16.  Whatever events the process has handled since its start-up, the
    WebSocket server is set up, no subscriber is in the set twice, and
    every socket is older than the next one to be accepted, so that a new
    connection never takes the place of an existing socket. *)
Theorem X16_hub_invariants
    (clock : nat -> string) (csv_writable : bool) (evs : list Event) :
  let w := snd (run evs (boot clock csv_writable)) in
  wsServer w = true /\
  NoDup (connectedClients w) /\
  sockets_bound w.
Proof.
  intros w.
  destruct (hub_ok_run evs (boot clock csv_writable)
              (hub_ok_boot clock csv_writable)) as [Hs Hn].
  split; [exact Hs|]. split; [exact Hn|].
  apply sockets_bound_run. intros k [s Hs0]. vm_compute in Hs0. discriminate.
Qed.

(** What has been put on a socket stays: after any events, every
    socket has received what it had received before, followed by what was
    sent to it since. *)
Theorem inbox_only_grows
    (w : World) (evs : list Event) (c : nat)
    (Hbound : sockets_bound w) :
  exists more, inbox_of (snd (run evs w)) c = inbox_of w c ++ more.
Proof.
  assert (H : sockets_bound (snd (run evs w)) /\
              next_socket w <= next_socket (snd (run evs w)) /\
              exists more, inbox_of (snd (run evs w)) c = inbox_of w c ++ more).
  { apply (inv_run
             (fun y => sockets_bound y /\
                       next_socket w <= next_socket y /\
                       exists more, inbox_of y c = inbox_of w c ++ more)
             (fun _ => True)).
    - frame_step.
    - frame_step.
    - frame_step.
    - frame_step.
    - intros w0 client m (Hb & Hn & more & Hm) Hd.
      split; [|split].
      + intros k. unfold delivered, deliverable in *.
        destruct (sockets w0 !! client) as [sc|] eqn:Hsc; [|discriminate].
        simpl. destruct (decide (k = client)) as [->|Hne].
        * intros _. apply Hb. rewrite Hsc. eauto.
        * rewrite lookup_insert_ne by congruence. apply Hb.
      + unfold delivered. destruct (sockets w0 !! client); exact Hn.
      + rewrite inbox_of_delivered by exact Hd.
        case_bool_decide.
        * exists (more ++ [m]). rewrite Hm, app_assoc. reflexivity.
        * exists more. exact Hm.
    - frame_step.
    - frame_step.
    - intros w0 ip b (Hb & Hn & more & Hm). split; [|exact I].
      split; [|split].
      + intros k. unfold accepted. simpl.
        destruct (decide (k = next_socket w0)) as [->|Hne]; [lia|].
        rewrite lookup_insert_ne by congruence. intros Hk.
        specialize (Hb k Hk). lia.
      + unfold accepted. simpl. lia.
      + unfold accepted, inbox_of. simpl.
        destruct (decide (c = next_socket w0)) as [->|Hne].
        * rewrite lookup_insert_eq. simpl.
          assert (Hnone : sockets w !! next_socket w0 = None).
          { destruct (sockets w !! next_socket w0) as [s|] eqn:E;
              [|reflexivity].
            assert (next_socket w0 < next_socket w)
              by (apply Hbound; rewrite E; eauto).
            lia. }
          exists []. unfold inbox_of. rewrite Hnone. reflexivity.
        * rewrite lookup_insert_ne by congruence. exists more. exact Hm.
    - intros w0 client sc st b (Hb & Hn & more & Hm) Hsc _.
      split; [|split].
      + intros k. simpl. destruct (decide (k = client)) as [->|Hne].
        * intros _. apply Hb. rewrite Hsc. eauto.
        * rewrite lookup_insert_ne by congruence. apply Hb.
      + exact Hn.
      + exists more. rewrite <- Hm. unfold inbox_of. simpl.
        destruct (decide (c = client)) as [->|Hne].
        * rewrite lookup_insert_eq, Hsc. reflexivity.
        * rewrite lookup_insert_ne by congruence. reflexivity.
    - split; [exact Hbound|]. split; [lia|]. exists []. rewrite app_nil_r.
      reflexivity. }
  apply H.
Qed.

Lemma inbox_only_grows_example :
  let w := Sample.one_client in
  let evs := [EvPostData (Sample.reading 1);
              EvMessage 0 (Some (JsObj [("type", JsStr "ping")]));
              EvClose 0;
              EvPostData (Sample.reading 2)] in
  sockets_bound w /\
  inbox_of (snd (run evs w)) 0 =
    inbox_of w 0 ++ [MsgSensorReading (Sample.reading 1) (Sample.clock 2);
                     MsgPong (Sample.clock 3)].
Proof.
  intros w evs.
  assert (Hbound : sockets_bound w).
  { apply (sockets_bound_run [EvConnection "10.0.0.1" false] Sample.started).
    intros k [s Hs]. vm_compute in Hs. discriminate. }
  split; [exact Hbound|].
  destruct (inbox_only_grows w evs 0 Hbound) as [more Hmore].
  rewrite Hmore. f_equal.
  apply (app_inv_head (inbox_of w 0)). rewrite <- Hmore. reflexivity.
Defined.

(** ** The service without the route *)

Lemma stamped_timestamp (sensorData : Reading) w :
  is_Some (stamped sensorData w !! "timestamp") /\
  (forall f, f <> "timestamp" -> stamped sensorData w !! f = sensorData !! f).
Proof.
  unfold stamped. split.
  - destruct (sensorData !! "timestamp") as [ts|] eqn:E; simpl.
    + destruct (truthy ts); simpl; [rewrite E; eauto|].
      rewrite lookup_insert_eq. eauto.
    + rewrite lookup_insert_eq. eauto.
  - intros f Hf. destruct (js_not (sensorData !! "timestamp")); [|reflexivity].
    apply lookup_insert_ne. congruence.
Qed.

(** When the append raises, the request ends with the two error lines and
    nothing else. *)
Lemma post_data_trace_raised (body : JsObject) w :
  Routes.missing_fields body = [] ->
  append_returns body w = false ->
  trace (snd (Routes.post_data body w)) =
  trace w ++ Store.effects (appended body w) ++
  [FxLog (LogHandleError TypeError_convert);
   FxLog (LogRouteError TypeError_convert)].
Proof.
  intros Hm Hret. rewrite (post_data_handle body w Hm), handleSensorData_eq.
  cbv zeta. rewrite Hret. cbn [snd trace set_trace].
  assert (Ht : trace (appended_world body w) =
               trace w ++ Store.effects (appended body w)).
  { unfold appended_world. destruct (js_not _); reflexivity. }
  rewrite Ht, <- !app_assoc. reflexivity.
Qed.

(** X17.  [handleSensorData] checks nothing: called with any object, it
    stores the object as its latest reading, with a [timestamp] property in
    any case (the submitted one when truthy, the instant read otherwise),
    whether it returns or throws.  It returns [success] with the number of
    readings held exactly when no console line raises, that is when the
    append evicts nothing or evicts a reading whose timestamp can be
    converted to a string, and [ppb], [temperature] and [humidity] can be
    converted; otherwise it throws the [TypeError] of the conversion. *)
Theorem X17_service_stores_anything (sensorData : Reading) (w : World) :
  let r := stamped sensorData w in
  let w' := snd (Service.handleSensorData sensorData w) in
  let pushed := Store.readings (store w) ++ [r] in
  fst (Service.handleSensorData sensorData w) =
    (if ingests_cleanly sensorData w
     then Returned {| Service.success := true;
                      Service.readingCount :=
                        length (Store.readings (store w')) |}
     else Thrown TypeError_convert) /\
  ingests_cleanly sensorData w =
    (negb (Store.MAX_READINGS <? length pushed) ||
     convertible (head pushed ≫= (.!! "timestamp"))) &&
    (convertible (r !! "ppb") && convertible (r !! "temperature") &&
     convertible (r !! "humidity")) /\
  Store.getLatestReading (store w') = Some r /\
  is_Some (r !! "timestamp") /\
  (forall f, f <> "timestamp" -> r !! f = sensorData !! f).
Proof.
  intros r w' pushed.
  destruct (handleSensorData_after_append sensorData w) as [Hs _].
  fold w' in Hs.
  split; [|split; [|split]].
  - rewrite handleSensorData_outcome, Hs. reflexivity.
  - unfold ingests_cleanly, append_returns, appended, Store.addReading, loggable.
    rewrite addReadingCap_returns. fold r. cbn [forallb].
    rewrite andb_true_r. f_equal. apply andb_assoc.
  - rewrite Hs. apply addReadingCap_latest, MAX_READINGS_pos.
  - apply stamped_timestamp.
Qed.

(** X18.  For a body with the five required keys, [post_data] first
    appends the stamped reading: the effects of the append open the trace
    of the request and contain no send, and nothing that follows, the CSV
    line, the sends of the broadcast and the console lines, writes the
    store, whose latest reading is the stamped one from the append on; a
    broadcast never writes the store.  When the append raises, nothing is
    sent.  The answer is 200 with the number of readings held when no
    console line raises, and 500 otherwise. *)
Theorem X18_append_precedes_broadcast
    (body : JsObject) (w : World)
    (Hvalid : forall f, f ∈ Routes.requiredFields -> is_Some (body !! f)) :
  let r := stamped body w in
  let call := appended body w in
  let w' := snd (Routes.post_data body w) in
  exists post,
    trace w' = trace w ++ Store.effects call ++ post /\
    FxPush r ∈ Store.effects call /\
    Forall not_send (Store.effects call) /\
    Forall not_store_write post /\
    (append_returns body w = false -> Forall not_send post) /\
    Store.getLatestReading (Store.after call) = Some r /\
    store w' = Store.after call /\
    (forall x, store (snd (Ws.broadcastToClients r x)) = store x) /\
    fst (Routes.post_data body w) =
      Returned
        (if ingests_cleanly body w then
           {| Routes.status := 200;
              Routes.json :=
                Routes.JsonReceived (length (Store.readings (store w'))) |}
         else {| Routes.status := 500;
                 Routes.json := Routes.JsonError TypeError_convert |}).
Proof.
  intros r call w'. apply missing_fields_nil in Hvalid.
  destruct (post_data_after_append body w Hvalid) as [Hs (post & Ht & Hp)].
  fold w' call in Hs, Ht.
  exists post. rewrite <- app_assoc in Ht.
  split; [exact Ht|].
  split; [apply addReadingCap_effects|].
  split; [apply addReadingCap_effects|].
  split; [exact Hp|].
  split.
  { intros Hret.
    pose proof (post_data_trace_raised body w Hvalid Hret) as Ht2.
    fold w' call in Ht2. rewrite Ht in Ht2.
    apply app_inv_head, app_inv_head in Ht2. rewrite Ht2.
    repeat constructor. }
  split; [apply addReadingCap_latest, MAX_READINGS_pos|].
  split; [exact Hs|].
  split; [intros x; apply broadcast_keeps_store|].
  rewrite (post_data_response body w Hvalid), Hs. reflexivity.
Qed.

Lemma X18_append_precedes_broadcast_witness :
  let body := Sample.reading 7 in
  let w' := snd (Routes.post_data body Sample.one_client) in
  (forall f, f ∈ Routes.requiredFields -> is_Some (body !! f)) /\
  (exists post,
     trace w' = trace Sample.one_client ++ [FxPush body] ++ post /\
     Forall not_store_write post) /\
  Store.getLatestReading (store w') = Some body /\
  fst (Routes.post_data body Sample.one_client) =
    Returned {| Routes.status := 200; Routes.json := Routes.JsonReceived 1 |}.
Proof.
  intros body w'.
  assert (Hvalid : forall f, f ∈ Routes.requiredFields -> is_Some (body !! f)).
  { intros f Hf.
    repeat (apply elem_of_cons in Hf; destruct Hf as [->|Hf];
            [vm_compute; eauto|]).
    inversion Hf. }
  split; [exact Hvalid|].
  destruct (X18_append_precedes_broadcast body Sample.one_client Hvalid)
    as (post & Ht & _ & _ & Hp & _ & Hl & Hs & _ & Hr).
  split; [exists post; split; [exact Ht | exact Hp]|].
  split; [fold w' in Hs; rewrite Hs; exact Hl|].
  etransitivity; [exact Hr | reflexivity].
Defined.
